(** * chatbot-flow: the editor state of [src/App.tsx] and its event handlers

    The component [App] keeps three pieces of React state (the node list, the
    edge list and the id of the selected node), one handle on the flow
    instance, one ref on the canvas wrapper and a counter for node ids.  Each
    event handler is embedded as a computation over that state which may also
    raise notifications ([toast]).  Coordinates are JavaScript numbers, that
    is IEEE binary64 values, embedded as primitive floats. *)

From Stdlib Require Import PrimFloat.
From stdpp Require Import base option list strings pretty infinite gmap.

Local Open Scope string_scope.
Local Open Scope list_scope.
Local Open Scope nat_scope.

(** ** Data model *)

Module XYPosition.
Record t : Type := mk { x : float; y : float }.
End XYPosition.
Abbreviation XYPosition := XYPosition.t.

(** The two fields of [getBoundingClientRect()] that [onDrop] reads. *)
Module DOMRect.
Record t : Type := mk { left : float; top : float }.
End DOMRect.
Abbreviation DOMRect := DOMRect.t.

Module NodeData.
Record t : Type := mk { label : string }.
End NodeData.
Abbreviation NodeData := NodeData.t.

(** [Node] of the flow library, with the fields the application creates
    ([id], [type], [position], [data]) and the optional [selected] flag that
    select changes write. *)
Module Node.
Record t : Type := mk {
  id : string;
  type : string;
  position : XYPosition;
  data : NodeData;
  selected : option bool
}.
End Node.
Abbreviation Node := Node.t.

Module Edge.
Record t : Type := mk {
  id : string;
  source : string;
  target : string;
  selected : option bool
}.
End Edge.
Abbreviation Edge := Edge.t.

(** The argument of [onConnect]. *)
Module Connection.
Record t : Type := mk { source : string; target : string }.
End Connection.
Abbreviation Connection := Connection.t.

(** The flow instance as the application uses it: which object it is
    ([object], since React compares a state value and a [useCallback]
    dependency by identity) and the one method that is called on it.  The
    method's body belongs to the flow library; the instance carries it as a
    function of the point it is given (the canvas rectangle and the pan/zoom
    transform are the instance's own state). *)
Module ReactFlowInstance.
Record t : Type := mk {
  object : nat;
  screenToFlowPosition : XYPosition → XYPosition
}.
End ReactFlowInstance.
Abbreviation ReactFlowInstance := ReactFlowInstance.t.

(** What [onDrop] reads of a drag event: the pointer position and
    [dataTransfer.getData('application/reactflow')], which is the empty
    string when no such payload is attached. *)
Module DragEvent.
Record t : Type := mk { clientX : float; clientY : float; dataTransfer : string }.
End DragEvent.
Abbreviation DragEvent := DragEvent.t.

(** A call [toast(title, { description })]. *)
Module Toast.
Record t : Type := mk { title : string; description : string }.
End Toast.
Abbreviation Toast := Toast.t.

(** The state of one mounted [App]: the [useState] cells, the wrapper ref
    ([None] while [reactFlowWrapper.current] is null, otherwise the bounding
    rectangle it reports) and the counter [id] that [getId] closes over (a
    number that only ever counts up from 0, kept as a natural number).
    [onDrop] is memoised on [reactFlowInstance], so between two changes of
    the instance every drop runs the same closure and sees the same counter
    binding. *)
Module State.
Record t : Type := mk {
  nodes : list Node;
  edges : list Edge;
  selectedNodeId : option string;
  reactFlowInstance : option ReactFlowInstance;
  reactFlowWrapper : option DOMRect;
  id : nat
}.
End State.
Abbreviation State := State.t.

(** [useState([])], [useState([])], [useState(null)], [useState(null)],
    [useRef(null)] and [let id = 0]. *)
Definition initialState : State :=
  State.mk [] [] None None None 0.

(** ** Handlers as state computations with a notification log *)

Definition Handler (A : Type) : Type := State → A * State * list Toast.

Definition ret {A} (a : A) : Handler A := λ st, (a, st, []).

Definition bind {A B} (m : Handler A) (k : A → Handler B) : Handler B :=
  λ st, let '(a, st1, out1) := m st in
        let '(b, st2, out2) := k a st1 in
        (b, st2, out1 ++ out2).

Notation "x ←' m ;; k" := (bind m (λ x, k))
  (at level 100, m at next level, right associativity, only parsing).
Notation "m ;;' k" := (bind m (λ _, k))
  (at level 100, right associativity, only parsing).

(** The closure's view of the current render. *)
Definition get : Handler State := λ st, (st, st, []).

Definition setNodes (f : list Node → list Node) : Handler unit :=
  λ st, (tt, State.mk (f (State.nodes st)) (State.edges st) (State.selectedNodeId st)
               (State.reactFlowInstance st) (State.reactFlowWrapper st) (State.id st), []).

Definition setEdges (f : list Edge → list Edge) : Handler unit :=
  λ st, (tt, State.mk (State.nodes st) (f (State.edges st)) (State.selectedNodeId st)
               (State.reactFlowInstance st) (State.reactFlowWrapper st) (State.id st), []).

Definition setSelectedNodeId (v : option string) : Handler unit :=
  λ st, (tt, State.mk (State.nodes st) (State.edges st) v
               (State.reactFlowInstance st) (State.reactFlowWrapper st) (State.id st), []).

Definition setReactFlowInstance (v : option ReactFlowInstance) : Handler unit :=
  λ st, (tt, State.mk (State.nodes st) (State.edges st) (State.selectedNodeId st)
               v (State.reactFlowWrapper st) (State.id st), []).

Definition toast (title description : string) : Handler unit :=
  λ st, (tt, st, [Toast.mk title description]).

(** Projections of a run. *)
Definition result {A} (r : A * State * list Toast) : A := r.1.1.
Definition final {A} (r : A * State * list Toast) : State := r.1.2.
Definition toasts {A} (r : A * State * list Toast) : list Toast := r.2.

(** ** Identifier generator *)

(** [`node_${n}`]: the decimal rendering of a counter value. *)
Definition nodeId (n : nat) : string := "node_" +:+ pretty n.

(** [const getId = () => `node_${id++}`]: the id is built from the counter
    as it is, then the counter advances. *)
Definition getId : Handler string :=
  λ st, (nodeId (State.id st),
         State.mk (State.nodes st) (State.edges st) (State.selectedNodeId st)
           (State.reactFlowInstance st) (State.reactFlowWrapper st) (S (State.id st)),
         []).

(** [n] successive calls of [getId], with the identifiers in call order. *)
Fixpoint getIds (n : nat) : Handler (list string) :=
  match n with
  | O => ret []
  | S n' => i ←' getId ;; rest ←' getIds n' ;; ret (i :: rest)
  end.

(** ** The flow library's functions that the handlers call

    [applyNodeChanges], [applyEdgeChanges] and [addEdge] are imported from
    the flow library; the application passes them exactly the arguments
    shown in the handlers below. *)

(** Modelled from the spec: the change variants of the flow library's
    [NodeChange] type, which the spec lists as add, remove, position update
    and select. *)
Inductive NodeChange : Type :=
  | NodeAdd (item : Node)
  | NodeRemove (id : string)
  | NodeMove (id : string) (position : XYPosition)
  | NodeSelect (id : string) (selected : bool).

(** Modelled from the spec: the flow library's [EdgeChange] type, with the
    same contract as node changes (edges have no position). *)
Inductive EdgeChange : Type :=
  | EdgeAdd (item : Edge)
  | EdgeRemove (id : string)
  | EdgeSelect (id : string) (selected : bool).

(** Modelled from the spec: one step of the flow library's
    [applyNodeChanges].  A change touches only the node it names, keeps that
    node's id, and is a no-op when no node has the named id. *)
Definition applyNodeChange (nds : list Node) (c : NodeChange) : list Node :=
  match c with
  | NodeAdd item => nds ++ [item]
  | NodeRemove i => List.filter (λ n, negb (String.eqb (Node.id n) i)) nds
  | NodeMove i p =>
      (λ n, if String.eqb (Node.id n) i
            then Node.mk (Node.id n) (Node.type n) p (Node.data n) (Node.selected n)
            else n) <$> nds
  | NodeSelect i b =>
      (λ n, if String.eqb (Node.id n) i
            then Node.mk (Node.id n) (Node.type n) (Node.position n) (Node.data n) (Some b)
            else n) <$> nds
  end.

(** Modelled from the spec: the flow library's [applyNodeChanges(changes,
    nodes)], an ordered batch of node changes applied to the node list. *)
Definition applyNodeChanges (changes : list NodeChange) (nds : list Node) : list Node :=
  fold_left applyNodeChange changes nds.

(** Modelled from the spec: one step of the flow library's
    [applyEdgeChanges].  The function receives the edge list alone (see
    [onEdgesChange]), so an add has no node set to consult. *)
Definition applyEdgeChange (eds : list Edge) (c : EdgeChange) : list Edge :=
  match c with
  | EdgeAdd item => eds ++ [item]
  | EdgeRemove i => List.filter (λ e, negb (String.eqb (Edge.id e) i)) eds
  | EdgeSelect i b =>
      (λ e, if String.eqb (Edge.id e) i
            then Edge.mk (Edge.id e) (Edge.source e) (Edge.target e) (Some b)
            else e) <$> eds
  end.

(** Modelled from the spec: the flow library's [applyEdgeChanges(changes,
    edges)]. *)
Definition applyEdgeChanges (changes : list EdgeChange) (eds : list Edge) : list Edge :=
  fold_left applyEdgeChange changes eds.

(** Modelled from the spec: the flow library's [addEdge(params, edges)],
    which the spec describes as creating a new edge with a freshly generated
    id, multiple edges between the same pair and self-loops allowed.  The
    fresh id is the first decimal string that no edge of the list uses. *)
Definition addEdge (params : Connection) (eds : list Edge) : list Edge :=
  eds ++ [Edge.mk (fresh (Edge.id <$> eds))
            (Connection.source params) (Connection.target params) None].

(** The pan/zoom transform of the canvas: translation and zoom factor. *)
Module Viewport.
Record t : Type := mk { x : float; y : float; zoom : float }.
End Viewport.
Abbreviation Viewport := Viewport.t.

(** No pan, zoom factor 1. *)
Definition identityViewport : Viewport := Viewport.mk 0 0 1.

(** Modelled from the spec: the coordinate mapper [toCanvas(screenPoint,
    canvasOrigin, viewportTransform)], which is the flow library's
    [screenToFlowPosition]: it takes a pointer position in viewport
    coordinates, takes off the canvas element's bounding offset itself, and
    undoes the pan and the zoom. *)
Definition toCanvas (screenPoint : XYPosition) (canvasOrigin : DOMRect)
    (viewport : Viewport) : XYPosition :=
  XYPosition.mk
    ((XYPosition.x screenPoint - DOMRect.left canvasOrigin - Viewport.x viewport)
       / Viewport.zoom viewport)%float
    ((XYPosition.y screenPoint - DOMRect.top canvasOrigin - Viewport.y viewport)
       / Viewport.zoom viewport)%float.

(** Modelled from the spec: the instance that the flow library reports
    through [onInit], for a canvas at [canvasOrigin] with transform
    [viewport]; its method is the coordinate mapper with these two fixed. *)
Definition flowInstance (object : nat) (canvasOrigin : DOMRect)
    (viewport : Viewport) : ReactFlowInstance :=
  ReactFlowInstance.mk object (λ p, toCanvas p canvasOrigin viewport).

(** ** Event handlers of [App] *)

(** [node.id === selectedNodeId], where [selectedNodeId] is a string or
    [null]. *)
Definition isSelected (selectedNodeId : option string) (node : Node) : bool :=
  match selectedNodeId with
  | Some s => String.eqb (Node.id node) s
  | None => false
  end.

(** [{ ...node, data: { ...node.data, label: newLabel } }] *)
Definition withLabel (newLabel : string) (node : Node) : Node :=
  Node.mk (Node.id node) (Node.type node) (Node.position node)
    (NodeData.mk newLabel) (Node.selected node).

Definition onNodeClick (node : Node) : Handler unit :=
  setSelectedNodeId (Some (Node.id node)).

(** The button of the settings panel: [setSelectedNodeId(null)]. *)
Definition onSaveName : Handler unit :=
  setSelectedNodeId None.

(** [Object.is(reactFlowInstance, instance)] for the current state value. *)
Definition sameInstance (current : option ReactFlowInstance)
    (instance : ReactFlowInstance) : bool :=
  match current with
  | Some c => ReactFlowInstance.object c =? ReactFlowInstance.object instance
  | None => false
  end.

(** [onInit={setReactFlowInstance}].  Setting the object that is already
    held changes nothing.  [onDrop] is memoised on [reactFlowInstance]: once
    the instance has changed, the next render stores a new [onDrop], which
    closes over that render's own [let id = 0], so the counter seen by later
    drops starts again. *)
Definition onInit (instance : ReactFlowInstance) : Handler unit :=
  st ←' get ;;
  if sameInstance (State.reactFlowInstance st) instance then ret tt
  else
    setReactFlowInstance (Some instance) ;;'
    (λ st, (tt, State.mk (State.nodes st) (State.edges st) (State.selectedNodeId st)
                  (State.reactFlowInstance st) (State.reactFlowWrapper st) 0, [])).

Definition handleLabelChange (newLabel : string) : Handler unit :=
  st ←' get ;;
  setNodes (λ currentNodes,
    (λ node, if isSelected (State.selectedNodeId st) node
             then withLabel newLabel node
             else node) <$> currentNodes).

(** [nodes.find((node) => node.id === selectedNodeId)], recomputed on every
    render; [None] is [undefined]. *)
Definition selectedNode (st : State) : option Node :=
  List.find (isSelected (State.selectedNodeId st)) (State.nodes st).

Definition onNodesChange (changes : list NodeChange) : Handler unit :=
  setNodes (λ nds, applyNodeChanges changes nds).

Definition onEdgesChange (changes : list EdgeChange) : Handler unit :=
  setEdges (λ eds, applyEdgeChanges changes eds).

Definition onConnect (params : Connection) : Handler unit :=
  setEdges (λ eds, addEdge params eds).

(** [`${id} Node`], read after [getId] has advanced the counter. *)
Definition placeholderLabel (n : nat) : string := pretty n +:+ " Node".

Definition onDrop (event : DragEvent) : Handler unit :=
  st ←' get ;;
  let reactFlowBounds := State.reactFlowWrapper st in
  let type := DragEvent.dataTransfer event in
  if String.eqb type "" then ret tt
  else
    let position :=
      match reactFlowBounds with
      | None => None
      | Some bounds =>
          match State.reactFlowInstance st with
          | None => None
          | Some instance =>
              Some (ReactFlowInstance.screenToFlowPosition instance
                      (XYPosition.mk
                         (DragEvent.clientX event - DOMRect.left bounds)%float
                         (DragEvent.clientY event - DOMRect.top bounds)%float))
          end
      end in
    match position with
    | Some position =>
        newId ←' getId ;;
        st' ←' get ;;
        let newNode :=
          Node.mk newId type position
            (NodeData.mk (placeholderLabel (State.id st'))) None in
        setNodes (λ prev, prev ++ [newNode])
    | None => ret tt
    end.

(** [(node) => !edges.some((edge) => edge.target === node.id)] *)
Definition hasNoIncoming (edges : list Edge) (node : Node) : bool :=
  negb (existsb (λ edge, String.eqb (Edge.target edge) (Node.id node)) edges).

Definition nodesWithNoIncoming (nodes : list Node) (edges : list Edge) : list Node :=
  List.filter (hasNoIncoming edges) nodes.

Definition handleSave : Handler unit :=
  st ←' get ;;
  let nodes := State.nodes st in
  let edges := State.edges st in
  if (1 <? length nodes) && (1 <? length (nodesWithNoIncoming nodes edges))
  then toast "Failed to save the flow" "More than one node has an empty target handle!"
  else toast "Flow saved successfully" "Continue working!!".

(** The two notifications of [handleSave]. *)
Definition toastFailed : Toast :=
  Toast.mk "Failed to save the flow" "More than one node has an empty target handle!".

Definition toastSaved : Toast :=
  Toast.mk "Flow saved successfully" "Continue working!!".

(** [onDragOver] calls [preventDefault] and sets the drop effect: nothing of
    the editor state. *)
Definition onDragOver : Handler unit := ret tt.

(** ** Sessions: the events the editor reacts to *)

Inductive Event : Type :=
  | Init (instance : ReactFlowInstance)
  | NodeClick (node : Node)
  | LabelChange (newLabel : string)
  | SaveName
  | NodesChange (changes : list NodeChange)
  | EdgesChange (changes : list EdgeChange)
  | Connect (params : Connection)
  | Drop (event : DragEvent)
  | DragOver
  | Save.

Definition handle (ev : Event) : Handler unit :=
  match ev with
  | Init instance => onInit instance
  | NodeClick node => onNodeClick node
  | LabelChange newLabel => handleLabelChange newLabel
  | SaveName => onSaveName
  | NodesChange changes => onNodesChange changes
  | EdgesChange changes => onEdgesChange changes
  | Connect params => onConnect params
  | Drop event => onDrop event
  | DragOver => onDragOver
  | Save => handleSave
  end.

(** Handlers run to completion, one event after the other. *)
Fixpoint session (evs : list Event) : Handler unit :=
  match evs with
  | [] => ret tt
  | ev :: evs' => handle ev ;;' session evs'
  end.

Definition isNodeAdd (c : NodeChange) : bool :=
  match c with
  | NodeAdd _ => true
  | _ => false
  end.

(** The events of an initialised editor in which nodes enter the list
    through [onDrop] only: no second [onInit], no add change from the flow
    library. *)
Definition editing (ev : Event) : bool :=
  match ev with
  | Init _ => false
  | NodesChange changes => negb (existsb isNodeAdd changes)
  | _ => true
  end.

(** ** Properties of a graph state *)

(** The node ids are pairwise distinct and each was issued by [getId] at a
    counter value below the current one. *)
Definition idsIssued (st : State) : Prop :=
  NoDup (Node.id <$> State.nodes st)
  ∧ Forall (λ i, ∃ k, k < State.id st ∧ i = nodeId k) (Node.id <$> State.nodes st).

(** Both endpoints of an edge are among the given node ids. *)
Definition endpointsIn (ids : list string) (e : Edge) : Prop :=
  Edge.source e ∈ ids ∧ Edge.target e ∈ ids.

(** Every edge's [source] and [target] name a node of the node list. *)
Definition noDanglingEdges (st : State) : Prop :=
  Forall (endpointsIn (Node.id <$> State.nodes st)) (State.edges st).

(** A root candidate at position [k] of the node list: a node that no edge
    has as its [target]. *)
Definition rootCandidateAt (st : State) (k : nat) : Prop :=
  ∃ n, State.nodes st !! k = Some n
       ∧ ∀ e, e ∈ State.edges st → Edge.target e ≠ Node.id n.

(** ** Example states *)

(** An instance whose method returns the point it is given. *)
Definition identityInstance : ReactFlowInstance :=
  ReactFlowInstance.mk 0 (λ p, p).

(** The editor once the wrapper is mounted with its origin at (20, 10) and
    the flow has reported its instance. *)
Definition readyState : State :=
  final (onInit identityInstance
           (State.mk [] [] None None (Some (DOMRect.mk 20 10)) 0)).

Definition dropDefault : DragEvent := DragEvent.mk 120 80 "default".

(** Two drops: nodes [node_0] and [node_1], no edge. *)
Definition twoNodes : State :=
  final (onDrop dropDefault (final (onDrop dropDefault readyState))).

Definition twoNodesConnected : State :=
  final (onConnect (Connection.mk "node_0" "node_1") twoNodes).

Definition twoNodesConnectedRemoved : State :=
  final (onNodesChange [NodeRemove "node_0"] twoNodesConnected).

(** A message node with the given id, for the scenarios below. *)
Definition messageNode (i : string) : Node :=
  Node.mk i "default" (XYPosition.mk 0 0) (NodeData.mk "") None.

Definition scenarioA : State :=
  State.mk [messageNode "N1"; messageNode "N2"; messageNode "N3"]
    [Edge.mk "e1" "N1" "N2" None] None None None 0.

Definition scenarioB : State :=
  State.mk [messageNode "N1"; messageNode "N2"]
    [Edge.mk "e1" "N1" "N2" None] None None None 0.

Definition scenarioC : State :=
  State.mk [messageNode "N1"] [] None None None 0.

(** Two nodes on a cycle: no root candidate. *)
Definition scenarioCycle : State :=
  State.mk [messageNode "N1"; messageNode "N2"]
    [Edge.mk "e1" "N1" "N2" None; Edge.mk "e2" "N2" "N1" None] None None None 0.

(** Two states with the same node ids and the same edge targets, but
    different positions, labels, types, edge ids and edge sources. *)
Definition graphOne : State :=
  State.mk
    [Node.mk "N1" "default" (XYPosition.mk 0 0) (NodeData.mk "1 Node") None;
     Node.mk "N2" "default" (XYPosition.mk 10 20) (NodeData.mk "2 Node") None;
     Node.mk "N3" "default" (XYPosition.mk 30 40) (NodeData.mk "3 Node") None]
    [Edge.mk "e1" "N1" "N2" None; Edge.mk "e2" "N1" "N3" None]
    None None None 3.

Definition graphTwo : State :=
  State.mk
    [Node.mk "N3" "other" (XYPosition.mk 5 5) (NodeData.mk "Hello") (Some true);
     Node.mk "N1" "default" (XYPosition.mk 7 7) (NodeData.mk "") None;
     Node.mk "N2" "default" (XYPosition.mk 9 9) (NodeData.mk "Bye") None]
    [Edge.mk "x" "N2" "N3" None; Edge.mk "y" "N3" "N2" None]
    (Some "N1") None None 0.

(** ** Palette, drag payload and side panel *)

(** An entry of [NODE_TYPES]. *)
Module NodeType.
Record t : Type := mk { type : string; label : string }.
End NodeType.
Abbreviation NodeType := NodeType.t.

Definition NODE_TYPES : list NodeType :=
  [NodeType.mk "default" "Message Node"].

(** The payload store of a drag ([event.dataTransfer]): one string per
    format; [getData] of a format that was never set is the empty string. *)
Abbreviation DataTransfer := (gmap string string).

Definition setData (format data : string) (dt : DataTransfer) : DataTransfer :=
  <[format := data]> dt.

Definition getData (format : string) (dt : DataTransfer) : string :=
  default "" (dt !! format).

(** [onDragStart] of a palette button:
    [event.dataTransfer.setData('application/reactflow', node.type)]. *)
Definition onDragStart (node : NodeType) (dt : DataTransfer) : DataTransfer :=
  setData "application/reactflow" (NodeType.type node) dt.

(** The drop event of a drag that carries [dt], as [onDrop] reads it. *)
Definition dropOf (clientX clientY : float) (dt : DataTransfer) : DragEvent :=
  DragEvent.mk clientX clientY (getData "application/reactflow" dt).

(** The node literal of [onDrop], for the counter value [c] read before
    [getId] runs. *)
Definition droppedNode (instance : ReactFlowInstance) (bounds : DOMRect)
    (c : nat) (event : DragEvent) : Node :=
  Node.mk (nodeId c) (DragEvent.dataTransfer event)
    (ReactFlowInstance.screenToFlowPosition instance
       (XYPosition.mk
          (DragEvent.clientX event - DOMRect.left bounds)%float
          (DragEvent.clientY event - DOMRect.top bounds)%float))
    (NodeData.mk (placeholderLabel (S c))) None.

(** What the side panel renders: with a selected node, the settings panel
    whose input shows [selectedNode.data.label] (with the "Save name"
    button); otherwise the nodes panel with "Save Flow" and one drag button
    per entry of [NODE_TYPES]. *)
Inductive Panel : Type :=
  | SettingsPanel (value : string)
  | NodesPanel (palette : list string).

Definition sidePanel (st : State) : Panel :=
  match selectedNode st with
  | Some node => SettingsPanel (NodeData.label (Node.data node))
  | None =>
      NodesPanel ((λ node, "+ Drag " +:+ NodeType.label node +:+ " from here")
                    <$> NODE_TYPES)
  end.

Definition isSave (ev : Event) : bool :=
  match ev with
  | Save => true
  | _ => false
  end.

(** ** Identifier generator: results *)

Section identifier_generator.

#[local] Instance nodeId_inj : Inj (=) (=) nodeId.
Proof.
  intros a b H. unfold nodeId in H.
  apply (inj (String.append "node_")) in H. by apply (inj pretty).
Qed.

(** A call of [getId] changes nothing but the counter. *)
Lemma getId_run (st : State) :
  getId st =
    (nodeId (State.id st),
     State.mk (State.nodes st) (State.edges st) (State.selectedNodeId st)
       (State.reactFlowInstance st) (State.reactFlowWrapper st) (S (State.id st)),
     []).
Proof. reflexivity. Qed.

(** [n] calls return the ids of the counter values [c, c+1, ..., c+n-1]
    and leave the counter at [c + n]. *)
Lemma getIds_run (n : nat) (st : State) :
  getIds n st =
    (nodeId <$> seq (State.id st) n,
     State.mk (State.nodes st) (State.edges st) (State.selectedNodeId st)
       (State.reactFlowInstance st) (State.reactFlowWrapper st) (State.id st + n),
     []).
Proof.
  revert st. induction n as [|n IH]; intros st.
  - destruct st as [nds eds sel inst wr c]. cbn. by rewrite Nat.add_0_r.
  - cbn [getIds]. unfold bind at 1. rewrite getId_run.
    unfold bind at 1. rewrite IH. cbn.
    by rewrite Nat.add_succ_r.
Qed.

End identifier_generator.

(** C3. Within one session the identifier generator never repeats and is
    strictly increasing: from a counter value [c] (0 in the initial state),
    [N] calls of [getId] return the ids of [c, c+1, ..., c+N-1] in that
    order, which are pairwise distinct, later calls carry strictly larger
    counter values, and the counter has advanced by one per call. *)
Theorem getId_distinct_increasing (N : nat) (st : State) :
  let ids := result (getIds N st) in
  State.id initialState = 0
  ∧ ids = nodeId <$> seq (State.id st) N
  ∧ length ids = N
  ∧ NoDup ids
  ∧ (∀ i j, i < j < N →
       ∃ a b, ids !! i = Some (nodeId a) ∧ ids !! j = Some (nodeId b) ∧ a < b)
  ∧ (∀ a b, nodeId a = nodeId b → a = b)
  ∧ State.id (final (getIds N st)) = State.id st + N.
Proof.
  cbn zeta. rewrite getIds_run. unfold result, final. cbn [fst snd State.id].
  split_and!; try done.
  - by rewrite length_fmap, length_seq.
  - apply (NoDup_fmap_2 nodeId), NoDup_seq.
  - intros i j [Hij HjN].
    exists (State.id st + i), (State.id st + j).
    rewrite !list_lookup_fmap, !lookup_seq_lt by lia.
    split_and!; [done | done | lia].
  - intros a b. apply (inj nodeId).
Qed.

(** ** Save-time validation: results *)

Section validation.

(** [hasNoIncoming] decides "no edge has this node as its target". *)
Lemma hasNoIncoming_true (edges : list Edge) (node : Node) :
  hasNoIncoming edges node = true
  ↔ ∀ e, e ∈ edges → Edge.target e ≠ Node.id node.
Proof.
  unfold hasNoIncoming. rewrite negb_true_iff, <- not_true_iff_false, existsb_exists.
  split.
  - intros Hno e He Heq. apply Hno. exists e. split.
    + by apply list_elem_of_In.
    + by apply String.eqb_eq.
  - intros Hall (e & He & Heq). apply (Hall e).
    + by apply list_elem_of_In.
    + by apply String.eqb_eq.
Qed.

(** A filtered list has more than one element exactly when two different
    positions of the list hold elements that pass the test. *)
Lemma filter_length_gt_1 {A} (f : A → bool) (l : list A) :
  1 < length (List.filter f l)
  ↔ ∃ k1 k2 a b, k1 ≠ k2 ∧ l !! k1 = Some a ∧ l !! k2 = Some b
                 ∧ f a = true ∧ f b = true.
Proof.
  assert (Hone : ∀ (l' : list A) k b, l' !! k = Some b → f b = true →
                   0 < length (List.filter f l')).
  { intros l' k b Hk Hb.
    assert (Hin : In b (List.filter f l')).
    { apply filter_In. split; [|done].
      apply list_elem_of_In, list_elem_of_lookup. eauto. }
    destruct (List.filter f l'); [destruct Hin | cbn; lia]. }
  induction l as [|x l IH].
  - cbn. split; [lia|]. intros (k1 & k2 & a & b & _ & H1 & _). done.
  - cbn [List.filter]. destruct (f x) eqn:Hx.
    + cbn [length]. split.
      * intros Hlen.
        destruct (List.filter f l) as [|y ys] eqn:Hf; [cbn in Hlen; lia|].
        assert (Hy : In y (List.filter f l)) by (rewrite Hf; by left).
        apply filter_In in Hy as [Hy Hfy].
        apply list_elem_of_In, list_elem_of_lookup in Hy as [k Hk].
        exists 0, (S k), x, y. by split_and!.
      * intros (k1 & k2 & a & b & Hne & H1 & H2 & Ha & Hb).
        destruct k1 as [|k1], k2 as [|k2]; [done | | |].
        -- cbn in H2. specialize (Hone l k2 b H2 Hb). lia.
        -- cbn in H1. specialize (Hone l k1 a H1 Ha). lia.
        -- cbn in H1, H2.
           assert (1 < length (List.filter f l)); [|lia].
           apply IH. exists k1, k2, a, b. split_and!; [lia|done..].
    + rewrite IH. split.
      * intros (k1 & k2 & a & b & Hne & H1 & H2 & Ha & Hb).
        exists (S k1), (S k2), a, b. split_and!; [lia|done..].
      * intros (k1 & k2 & a & b & Hne & H1 & H2 & Ha & Hb).
        destruct k1 as [|k1]; [cbn in H1; congruence|].
        destruct k2 as [|k2]; [cbn in H2; congruence|].
        exists k1, k2, a, b. split_and!; [lia|done..].
Qed.

(** The test of [handleSave], read on the graph. *)
Lemma handleSave_test (st : State) :
  (1 <? length (State.nodes st))
    && (1 <? length (nodesWithNoIncoming (State.nodes st) (State.edges st))) = true
  ↔ 1 < length (State.nodes st)
    ∧ ∃ k1 k2, k1 ≠ k2 ∧ rootCandidateAt st k1 ∧ rootCandidateAt st k2.
Proof.
  rewrite andb_true_iff, !Nat.ltb_lt. unfold nodesWithNoIncoming.
  rewrite filter_length_gt_1. unfold rootCandidateAt.
  split.
  - intros (Hlen & k1 & k2 & a & b & Hne & H1 & H2 & Ha & Hb).
    split; [done|]. exists k1, k2. split_and!; [done| |].
    + exists a. split; [done|]. by apply hasNoIncoming_true.
    + exists b. split; [done|]. by apply hasNoIncoming_true.
  - intros (Hlen & k1 & k2 & Hne & (a & H1 & Ha) & (b & H2 & Hb)).
    split; [done|]. exists k1, k2, a, b.
    split_and!; [done..| |]; by apply hasNoIncoming_true.
Qed.

(** [handleSave] raises exactly one of its two notifications and sets no
    state. *)
Lemma handleSave_run (st : State) :
  handleSave st =
    (tt, st,
     [if (1 <? length (State.nodes st))
           && (1 <? length (nodesWithNoIncoming (State.nodes st) (State.edges st)))
      then toastFailed else toastSaved]).
Proof.
  unfold handleSave, bind, get, toast.
  by destruct ((1 <? length (State.nodes st))
               && (1 <? length (nodesWithNoIncoming (State.nodes st) (State.edges st)))).
Qed.

End validation.

Section validation_inputs.

(** The root test reads an edge through its [target] only. *)
Lemma hasNoIncoming_targets (edges : list Edge) (node : Node) :
  hasNoIncoming edges node
  = negb (existsb (λ t, String.eqb t (Node.id node)) (Edge.target <$> edges)).
Proof.
  unfold hasNoIncoming. f_equal.
  induction edges as [|e edges IH]; [done|]. cbn. by rewrite IH.
Qed.

(** The number of root candidates, counted on node ids and edge targets. *)
Lemma nodesWithNoIncoming_length (nodes : list Node) (edges : list Edge) :
  length (nodesWithNoIncoming nodes edges)
  = length (List.filter
              (λ i, negb (existsb (λ t, String.eqb t i) (Edge.target <$> edges)))
              (Node.id <$> nodes)).
Proof.
  unfold nodesWithNoIncoming.
  induction nodes as [|n nodes IH]; [done|].
  cbn [List.filter fmap list_fmap]. rewrite hasNoIncoming_targets.
  destruct (negb _); cbn [length]; by rewrite IH.
Qed.

Lemma existsb_eqb_elem_of (targets : list string) (i : string) :
  existsb (λ t, String.eqb t i) targets = true ↔ i ∈ targets.
Proof.
  rewrite existsb_exists. split.
  - intros (t & Ht & Heq). apply String.eqb_eq in Heq as ->.
    by apply list_elem_of_In.
  - intros Hi. exists i. split; [by apply list_elem_of_In | apply String.eqb_refl].
Qed.

Lemma filter_length_Permutation {A} (f : A → bool) (l1 l2 : list A) :
  l1 ≡ₚ l2 → length (List.filter f l1) = length (List.filter f l2).
Proof.
  induction 1 as [|x l1 l2 _ IH|x y l|l1 l2 l3 _ IH1 _ IH2]; cbn.
  - done.
  - destruct (f x); cbn; by rewrite IH.
  - by destruct (f x), (f y).
  - by rewrite IH1.
Qed.

(** The notification of [handleSave] is fixed by the multiset of node ids
    and the set of edge targets. *)
Lemma handleSave_toasts_invariant (st1 st2 : State) :
  Node.id <$> State.nodes st1 ≡ₚ Node.id <$> State.nodes st2 →
  (∀ t, t ∈ Edge.target <$> State.edges st1 ↔ t ∈ Edge.target <$> State.edges st2) →
  toasts (handleSave st1) = toasts (handleSave st2).
Proof.
  intros Hids Htgts. rewrite !handleSave_run. unfold toasts. cbn [snd].
  rewrite !nodesWithNoIncoming_length.
  assert (Hlen : length (State.nodes st1) = length (State.nodes st2)).
  { apply Permutation_length in Hids. by rewrite !length_fmap in Hids. }
  rewrite Hlen.
  rewrite (filter_length_Permutation _ _ _ Hids).
  rewrite (List.filter_ext
             (λ i, negb (existsb (λ t, String.eqb t i) (Edge.target <$> State.edges st1)))
             (λ i, negb (existsb (λ t, String.eqb t i) (Edge.target <$> State.edges st2)))).
  - done.
  - intros i. f_equal.
    apply eq_true_iff_eq. rewrite !existsb_eqb_elem_of. apply Htgts.
Qed.

End validation_inputs.

(** C1. The save-time validation raises the failure notification ("More
    than one node has an empty target handle!") exactly when the graph has
    more than one node and root candidates at two different positions of the
    node list; in every other case it raises the success notification: with
    at most one node, and also when every node is the target of some edge. *)
Theorem handleSave_fails_iff_multiple_roots (st : State) :
  let multipleRoots :=
    1 < length (State.nodes st)
    ∧ ∃ k1 k2, k1 ≠ k2 ∧ rootCandidateAt st k1 ∧ rootCandidateAt st k2 in
  (toasts (handleSave st) = [toastFailed] ↔ multipleRoots)
  ∧ (toasts (handleSave st) = [toastSaved] ↔ ¬ multipleRoots)
  ∧ (length (State.nodes st) ≤ 1 → toasts (handleSave st) = [toastSaved])
  ∧ ((∀ n, n ∈ State.nodes st →
        ∃ e, e ∈ State.edges st ∧ Edge.target e = Node.id n) →
     toasts (handleSave st) = [toastSaved]).
Proof.
  cbn zeta. rewrite handleSave_run. unfold toasts. cbn [snd].
  pose proof (handleSave_test st) as Htest.
  destruct ((1 <? length (State.nodes st))
            && (1 <? length (nodesWithNoIncoming (State.nodes st) (State.edges st))))
    eqn:Hb.
  - assert (Hm := proj1 Htest eq_refl). split; [|split; [|split]].
    + done.
    + split; [done|]. intros Hno. by destruct Hno.
    + intros Hle. destruct Hm as [Hlt _]. lia.
    + intros Hall. destruct Hm as (_ & k1 & _ & _ & (n & Hk & Hn) & _).
      destruct (Hall n) as (e & He & Heq).
      * apply list_elem_of_lookup. eauto.
      * by destruct (Hn e He).
  - assert (Hm : ¬ (1 < length (State.nodes st)
                    ∧ ∃ k1 k2, k1 ≠ k2 ∧ rootCandidateAt st k1 ∧ rootCandidateAt st k2)).
    { intros Hm. apply Htest in Hm. congruence. }
    split; [|split; [|split]]; done.
Qed.

(** C9. Saving only inspects the graph: whatever the verdict, the state
    after [handleSave] is the state before it (node list, edge list and
    selection included), and the only effect is one notification. *)
Theorem handleSave_leaves_state (st : State) :
  final (handleSave st) = st
  ∧ State.nodes (final (handleSave st)) = State.nodes st
  ∧ State.edges (final (handleSave st)) = State.edges st
  ∧ State.selectedNodeId (final (handleSave st)) = State.selectedNodeId st
  ∧ (toasts (handleSave st) = [toastFailed] ∨ toasts (handleSave st) = [toastSaved]).
Proof.
  rewrite handleSave_run. unfold final, toasts. cbn [fst snd].
  split_and!; try done.
  destruct (_ && _); auto.
Qed.

(** C10. The verdict of the save-time validation depends only on the node
    ids and the edge targets: two states whose node lists carry the same set
    of (unique) ids and whose edge lists carry the same multiset of targets
    raise the same notification, whatever the positions, labels, types, edge
    ids and edge sources. *)
Theorem handleSave_depends_on_ids_and_targets (st1 st2 : State) :
  NoDup (Node.id <$> State.nodes st1) →
  NoDup (Node.id <$> State.nodes st2) →
  (∀ i, i ∈ Node.id <$> State.nodes st1 ↔ i ∈ Node.id <$> State.nodes st2) →
  Edge.target <$> State.edges st1 ≡ₚ Edge.target <$> State.edges st2 →
  toasts (handleSave st1) = toasts (handleSave st2).
Proof.
  intros Hnd1 Hnd2 Hids Htgts.
  apply handleSave_toasts_invariant.
  - by apply NoDup_Permutation.
  - intros t. by rewrite Htgts.
Qed.

Lemma handleSave_depends_on_ids_and_targets_witness :
  toasts (handleSave graphOne) = toasts (handleSave graphTwo).
Proof.
  apply (handleSave_depends_on_ids_and_targets graphOne graphTwo).
  - vm_compute. repeat constructor; intros H;
      repeat (apply elem_of_cons in H as [H|H]; [discriminate|]);
      by apply elem_of_nil in H.
  - vm_compute. repeat constructor; intros H;
      repeat (apply elem_of_cons in H as [H|H]; [discriminate|]);
      by apply elem_of_nil in H.
  - intros i. vm_compute fmap. rewrite !elem_of_cons, !elem_of_nil. tauto.
  - vm_compute fmap. apply perm_swap.
Defined.

(** ** Label edits and selection: results *)

Section selection.

Lemma isSelected_true (sel : option string) (node : Node) :
  isSelected sel node = true ↔ sel = Some (Node.id node).
Proof.
  destruct sel as [s|]; cbn; [|done].
  rewrite String.eqb_eq. split; congruence.
Qed.

Lemma isSelected_false (sel : option string) (node : Node) :
  isSelected sel node = false ↔ sel ≠ Some (Node.id node).
Proof. rewrite <- isSelected_true. by destruct (isSelected sel node). Qed.

(** [handleLabelChange] is one [setNodes] with the selection of the current
    render. *)
Lemma handleLabelChange_run (newLabel : string) (st : State) :
  handleLabelChange newLabel st =
    (tt,
     State.mk
       ((λ node, if isSelected (State.selectedNodeId st) node
                 then withLabel newLabel node else node) <$> State.nodes st)
       (State.edges st) (State.selectedNodeId st)
       (State.reactFlowInstance st) (State.reactFlowWrapper st) (State.id st),
     []).
Proof. reflexivity. Qed.

(** Mapping with a function that fixes every element of the list. *)
Lemma fmap_fixed {A} (f : A → A) (l : list A) :
  (∀ a, a ∈ l → f a = a) → f <$> l = l.
Proof.
  induction l as [|a l IH]; intros Hfix; [done|].
  cbn. rewrite Hfix by left. f_equal. apply IH. intros b Hb. apply Hfix. by right.
Qed.

(** Removing by id leaves no node with that id. *)
Lemma applyNodeChanges_remove (i : string) (nds : list Node) :
  applyNodeChanges [NodeRemove i] nds
  = List.filter (λ n, negb (String.eqb (Node.id n) i)) nds.
Proof. reflexivity. Qed.

Lemma find_isSelected_removed (i : string) (nds : list Node) :
  List.find (isSelected (Some i))
    (List.filter (λ n, negb (String.eqb (Node.id n) i)) nds) = None.
Proof.
  induction nds as [|n nds IH]; [done|].
  cbn [List.filter]. destruct (String.eqb (Node.id n) i) eqn:Hn; cbn [negb]; [done|].
  cbn [List.find isSelected]. by rewrite Hn.
Qed.

(** Looking up the selection after a label edit finds a node with the
    selected id and the new label, when the node list holds that id. *)
Lemma find_isSelected_relabelled (i newLabel : string) (nds : list Node) :
  i ∈ Node.id <$> nds →
  ∃ n, List.find (isSelected (Some i))
         ((λ node, if isSelected (Some i) node
                   then withLabel newLabel node else node) <$> nds) = Some n
       ∧ Node.id n = i ∧ NodeData.label (Node.data n) = newLabel.
Proof.
  induction nds as [|n nds IH]; intros Hi; [by apply elem_of_nil in Hi|].
  cbn [fmap list_fmap List.find].
  destruct (isSelected (Some i) n) eqn:Hn.
  - exists (withLabel newLabel n).
    assert (Hsel : isSelected (Some i) (withLabel newLabel n) = true) by done.
    rewrite Hsel. split_and!; [done| |done].
    apply isSelected_true in Hn. cbn. congruence.
  - rewrite Hn. apply IH.
    cbn in Hi. apply elem_of_cons in Hi as [->|Hi]; [|done].
    apply isSelected_false in Hn. done.
Qed.

End selection.

(** C7. A label edit replaces [data.label] of the nodes whose id is the
    current selection and of no other node: the node list keeps its length
    and order; a node with the selected id keeps its id, type, position and
    selected flag and gets the new label; every other node is unchanged;
    when no node carries the selected id, or nothing is selected, the node
    list is unchanged.  Edges, selection and counter are untouched and
    nothing is notified. *)
Theorem handleLabelChange_frame (newLabel : string) (st : State) :
  let st' := final (handleLabelChange newLabel st) in
  length (State.nodes st') = length (State.nodes st)
  ∧ (∀ k node, State.nodes st !! k = Some node →
       ∃ node', State.nodes st' !! k = Some node'
         ∧ Node.id node' = Node.id node
         ∧ Node.type node' = Node.type node
         ∧ Node.position node' = Node.position node
         ∧ Node.selected node' = Node.selected node
         ∧ (State.selectedNodeId st = Some (Node.id node) →
            NodeData.label (Node.data node') = newLabel)
         ∧ (State.selectedNodeId st ≠ Some (Node.id node) → node' = node))
  ∧ ((∀ node, node ∈ State.nodes st → State.selectedNodeId st ≠ Some (Node.id node)) →
     State.nodes st' = State.nodes st)
  ∧ (State.selectedNodeId st = None → st' = st)
  ∧ State.edges st' = State.edges st
  ∧ State.selectedNodeId st' = State.selectedNodeId st
  ∧ State.id st' = State.id st
  ∧ toasts (handleLabelChange newLabel st) = [].
Proof.
  cbn zeta. rewrite handleLabelChange_run. unfold final, toasts.
  cbn [fst snd State.nodes State.edges State.selectedNodeId State.id].
  split; [by rewrite length_fmap|].
  split.
  { intros k node Hk. rewrite list_lookup_fmap, Hk. cbn [fmap option_fmap option_map].
    destruct (isSelected (State.selectedNodeId st) node) eqn:Hsel.
    - exists (withLabel newLabel node). split_and!; try done.
      intros Hne. apply isSelected_true in Hsel. done.
    - exists node. split_and!; try done.
      intros Heq. apply isSelected_false in Hsel. done. }
  split.
  { intros Hnone. apply fmap_fixed. intros node Hnode.
    specialize (Hnone node Hnode). apply isSelected_false in Hnone.
    by rewrite Hnone. }
  split; [|done].
  intros Hsel. destruct st as [nds eds sel inst wr c]. cbn in *. subst sel.
  f_equal. by apply fmap_fixed.
Qed.

(** C6. Select a node, edit its label, then remove it with a change-set:
    while the node is in the list the selection resolves to it (with the
    edited label); after the removal the lookup by id finds nothing, so there
    is no active node, although the selection state still holds the id. *)
Theorem selectedNode_none_after_removal (st : State) (node : Node) (newLabel : string) :
  let clicked := final (onNodeClick node st) in
  let edited := final (handleLabelChange newLabel clicked) in
  let removed := final (onNodesChange [NodeRemove (Node.id node)] edited) in
  (Node.id node ∈ Node.id <$> State.nodes st →
     ∃ n, selectedNode edited = Some n
          ∧ Node.id n = Node.id node
          ∧ NodeData.label (Node.data n) = newLabel)
  ∧ selectedNode removed = None
  ∧ State.selectedNodeId removed = Some (Node.id node).
Proof.
  cbn zeta. rewrite handleLabelChange_run.
  unfold onNodeClick, setSelectedNodeId, onNodesChange, setNodes, final, selectedNode.
  cbn [fst snd State.nodes State.edges State.selectedNodeId State.id].
  split; [|split; [|done]].
  - apply find_isSelected_relabelled.
  - rewrite applyNodeChanges_remove. apply find_isSelected_removed.
Qed.

(** ** Dropping a node: results *)

Section drop.

(** A drop with a payload on a mounted, initialised canvas: one call of
    [getId], one node appended. *)
Lemma onDrop_ready (event : DragEvent) (st : State)
    (bounds : DOMRect) (instance : ReactFlowInstance) :
  DragEvent.dataTransfer event ≠ "" →
  State.reactFlowWrapper st = Some bounds →
  State.reactFlowInstance st = Some instance →
  onDrop event st =
    (tt,
     State.mk
       (State.nodes st ++
          [Node.mk (nodeId (State.id st)) (DragEvent.dataTransfer event)
             (ReactFlowInstance.screenToFlowPosition instance
                (XYPosition.mk
                   (DragEvent.clientX event - DOMRect.left bounds)%float
                   (DragEvent.clientY event - DOMRect.top bounds)%float))
             (NodeData.mk (placeholderLabel (S (State.id st)))) None])
       (State.edges st) (State.selectedNodeId st)
       (State.reactFlowInstance st) (State.reactFlowWrapper st) (S (State.id st)),
     []).
Proof.
  intros Htype Hwr Hinst. apply String.eqb_neq in Htype.
  destruct st as [nds eds sel inst wr c]. cbn in Hwr, Hinst. subst inst wr.
  unfold onDrop, bind at 1, get. cbn [State.reactFlowWrapper State.reactFlowInstance].
  rewrite Htype. reflexivity.
Qed.

(** A drop on a canvas that is not ready does nothing at all. *)
Lemma onDrop_unavailable (event : DragEvent) (st : State) :
  State.reactFlowWrapper st = None ∨ State.reactFlowInstance st = None →
  onDrop event st = (tt, st, []).
Proof.
  intros Hno. unfold onDrop, bind, get, ret.
  destruct (String.eqb (DragEvent.dataTransfer event) ""); [done|].
  destruct (State.reactFlowWrapper st); [|done].
  destruct Hno as [?|Hinst]; [done|]. by rewrite Hinst.
Qed.

End drop.

(** C4. Scenario D on the code: the flow's canvas and the wrapper share the
    origin (20, 10), pan/zoom is the identity, and a drop of type ["default"]
    arrives at viewport point (120, 80).  The coordinate mapper sends that
    point to (100, 70).  [onDrop] takes the wrapper's origin off before it
    calls the mapper, which takes the canvas origin off again: exactly one
    node is appended, with the id of the current counter value and the
    placeholder label of the next one, but at (80, 60). *)
Theorem onDrop_scenario_D_offset_twice (st : State) (object : nat) :
  State.reactFlowWrapper st = Some (DOMRect.mk 20 10) →
  State.reactFlowInstance st
    = Some (flowInstance object (DOMRect.mk 20 10) identityViewport) →
  let st' := final (onDrop (DragEvent.mk 120 80 "default") st) in
  toCanvas (XYPosition.mk 120 80) (DOMRect.mk 20 10) identityViewport
    = XYPosition.mk 100 70
  ∧ State.nodes st' =
      State.nodes st ++
        [Node.mk (nodeId (State.id st)) "default" (XYPosition.mk 80 60)
           (NodeData.mk (pretty (S (State.id st)) +:+ " Node")) None]
  ∧ XYPosition.mk 80 60 ≠ XYPosition.mk 100 70
  ∧ State.id st' = S (State.id st).
Proof.
  intros Hwr Hinst. cbn zeta.
  rewrite (onDrop_ready (DragEvent.mk 120 80 "default") st (DOMRect.mk 20 10)
             (flowInstance object (DOMRect.mk 20 10) identityViewport)) by done.
  unfold final. cbn [fst snd State.nodes State.id].
  split_and!; [reflexivity | reflexivity | | reflexivity].
  intros Heq. apply (f_equal (λ p, PrimFloat.ltb (XYPosition.x p) 90)) in Heq.
  vm_compute in Heq. discriminate.
Qed.

Lemma onDrop_scenario_D_offset_twice_witness :
  let st := State.mk [] [] None
              (Some (flowInstance 0 (DOMRect.mk 20 10) identityViewport))
              (Some (DOMRect.mk 20 10)) 0 in
  State.nodes (final (onDrop (DragEvent.mk 120 80 "default") st)) =
    [Node.mk "node_0" "default" (XYPosition.mk 80 60) (NodeData.mk "1 Node") None].
Proof.
  exact (proj1 (proj2 (onDrop_scenario_D_offset_twice
                         (State.mk [] [] None
                            (Some (flowInstance 0 (DOMRect.mk 20 10) identityViewport))
                            (Some (DOMRect.mk 20 10)) 0)
                         0 eq_refl eq_refl))).
Defined.

(** C8. When the canvas rectangle or the flow instance is unavailable at
    drop time, the drop is abandoned: the whole state, and so the node list,
    is what it was, the counter has not advanced and nothing is notified. *)
Theorem onDrop_not_ready_no_node (event : DragEvent) (st : State) :
  State.reactFlowWrapper st = None ∨ State.reactFlowInstance st = None →
  final (onDrop event st) = st
  ∧ State.nodes (final (onDrop event st)) = State.nodes st
  ∧ State.id (final (onDrop event st)) = State.id st
  ∧ toasts (onDrop event st) = [].
Proof.
  intros Hno. by rewrite onDrop_unavailable.
Qed.

Lemma onDrop_not_ready_no_node_witness :
  let event := DragEvent.mk 120 80 "default" in
  let st := State.mk [] [] None None (Some (DOMRect.mk 20 10)) 0 in
  (State.reactFlowWrapper st = None ∨ State.reactFlowInstance st = None)
  ∧ State.nodes (final (onDrop event st)) = [].
Proof.
  split.
  - right. reflexivity.
  - exact (proj1 (proj2 (onDrop_not_ready_no_node
                           (DragEvent.mk 120 80 "default")
                           (State.mk [] [] None None (Some (DOMRect.mk 20 10)) 0)
                           (or_intror eq_refl)))).
Defined.

(** ** Store mutations and the dangling-edge invariant: results *)

Section store.

(** Moving or selecting a node keeps every id in place. *)
Lemma fmap_id_preserved (f : Node → Node) (nds : list Node) :
  (∀ n, Node.id (f n) = Node.id n) → Node.id <$> (f <$> nds) = Node.id <$> nds.
Proof.
  intros Hf. rewrite <- list_fmap_compose. apply list_fmap_ext.
  intros _ n _. apply Hf.
Qed.

Lemma elem_of_ids_filter (f : Node → bool) (nds : list Node) (i : string) :
  i ∈ Node.id <$> List.filter f nds ↔ ∃ n, n ∈ nds ∧ f n = true ∧ Node.id n = i.
Proof.
  rewrite list_elem_of_fmap. split.
  - intros (n & -> & Hn). apply list_elem_of_In, filter_In in Hn as [Hn Hf].
    exists n. split_and!; [by apply list_elem_of_In | done | done].
  - intros (n & Hn & Hf & <-). exists n. split; [done|].
    apply list_elem_of_In, filter_In. split; [by apply list_elem_of_In | done].
Qed.

(** One change keeps every id that it does not remove. *)
Lemma applyNodeChange_keeps_id (c : NodeChange) (nds : list Node) (i : string) :
  c ≠ NodeRemove i →
  i ∈ Node.id <$> nds → i ∈ Node.id <$> applyNodeChange nds c.
Proof.
  intros Hc Hi. destruct c as [item|j|j p|j b]; cbn [applyNodeChange].
  - rewrite fmap_app. apply elem_of_app. by left.
  - apply elem_of_ids_filter. apply list_elem_of_fmap in Hi as (n & -> & Hn).
    exists n. split_and!; [done| |done].
    apply negb_true_iff, String.eqb_neq. congruence.
  - rewrite fmap_id_preserved; [done|]. intros n. by destruct (String.eqb _ _).
  - rewrite fmap_id_preserved; [done|]. intros n. by destruct (String.eqb _ _).
Qed.

Lemma applyNodeChanges_keeps_id (changes : list NodeChange) (nds : list Node) (i : string) :
  NodeRemove i ∉ changes →
  i ∈ Node.id <$> nds → i ∈ Node.id <$> applyNodeChanges changes nds.
Proof.
  unfold applyNodeChanges. revert nds.
  induction changes as [|c changes IH]; intros nds Hno Hi; [done|].
  cbn [fold_left]. apply IH.
  - intros Hin. apply Hno. by right.
  - apply applyNodeChange_keeps_id; [|done]. intros ->. apply Hno. by left.
Qed.

(** Removing by id removes the id. *)
Lemma applyNodeChanges_remove_id (i : string) (nds : list Node) :
  i ∉ Node.id <$> applyNodeChanges [NodeRemove i] nds.
Proof.
  rewrite applyNodeChanges_remove, elem_of_ids_filter.
  intros (n & _ & Hf & Hn). apply negb_true_iff, String.eqb_neq in Hf. done.
Qed.

(** One edge change keeps the endpoints inside a set of ids, when the edge
    it adds (if any) has its endpoints there. *)
Lemma applyEdgeChange_endpoints (ids : list string) (c : EdgeChange) (eds : list Edge) :
  (∀ e, c = EdgeAdd e → endpointsIn ids e) →
  Forall (endpointsIn ids) eds → Forall (endpointsIn ids) (applyEdgeChange eds c).
Proof.
  intros Hc Heds. destruct c as [item|j|j b]; cbn [applyEdgeChange].
  - apply Forall_app. split; [done|]. apply Forall_singleton. by apply Hc.
  - apply Forall_forall. intros e He.
    apply list_elem_of_In, filter_In in He as [He _].
    rewrite Forall_forall in Heds. by apply Heds, list_elem_of_In.
  - apply Forall_fmap. eapply Forall_impl; [done|].
    intros e He. cbn. by destruct (String.eqb _ _).
Qed.

Lemma applyEdgeChanges_endpoints (ids : list string) (changes : list EdgeChange)
    (eds : list Edge) :
  (∀ e, EdgeAdd e ∈ changes → endpointsIn ids e) →
  Forall (endpointsIn ids) eds → Forall (endpointsIn ids) (applyEdgeChanges changes eds).
Proof.
  unfold applyEdgeChanges. revert eds.
  induction changes as [|c changes IH]; intros eds Hadd Heds; [done|].
  cbn [fold_left]. apply IH.
  - intros e He. apply Hadd. by right.
  - apply applyEdgeChange_endpoints; [|done]. intros e ->. apply Hadd. by left.
Qed.

(** The id that [addEdge] gives the new edge is used by no edge of the
    list. *)
Lemma addEdge_fresh (eds : list Edge) :
  fresh (Edge.id <$> eds) ∉ Edge.id <$> eds.
Proof. apply infinite_is_fresh. Qed.

End store.

(** The graph after the two drops and the connect satisfies the invariant. *)
Lemma twoNodesConnected_noDangling : noDanglingEdges twoNodesConnected.
Proof.
  unfold noDanglingEdges, endpointsIn. vm_compute State.edges. vm_compute fmap.
  apply Forall_singleton. cbn. split; repeat constructor.
Qed.

(** C2, as stated, fails: [connect(a, b)] on a graph that satisfies the
    invariant, followed by a removal change-set for [a], leaves the edge
    from [a] in the edge list while no node has id [a]. *)
Lemma removal_leaves_dangling_edge :
  noDanglingEdges twoNodes
  ∧ noDanglingEdges twoNodesConnected
  ∧ ¬ noDanglingEdges twoNodesConnectedRemoved.
Proof.
  split_and!.
  - constructor.
  - apply twoNodesConnected_noDangling.
  - unfold noDanglingEdges, endpointsIn. vm_compute State.edges. vm_compute fmap.
    intros H. apply Forall_singleton in H as [Hsrc _]. cbn in Hsrc.
    apply list_elem_of_singleton in Hsrc. discriminate.
Qed.

(** C2, amended. Each store mutation writes one list only: a node
    change-set leaves the edge list as it is, an edge change-set and
    [connect] leave the node list as it is.  The dangling-edge invariant is
    preserved by a node change-set that removes no endpoint of an edge, by an
    edge change-set whose added edges have both endpoints in the node list,
    and by [connect] between two present nodes.  Removal does not cascade:
    after [connect(a, b)], a removal change-set for [a] leaves the new edge
    in the edge list and no node with id [a]. *)
Theorem store_mutations_invariant (st : State) :
  (∀ changes, State.edges (final (onNodesChange changes st)) = State.edges st)
  ∧ (∀ changes, State.nodes (final (onEdgesChange changes st)) = State.nodes st)
  ∧ (∀ params, State.nodes (final (onConnect params st)) = State.nodes st)
  ∧ (∀ changes,
       noDanglingEdges st →
       (∀ e, e ∈ State.edges st →
          (NodeRemove (Edge.source e) ∉ changes)
          ∧ (NodeRemove (Edge.target e) ∉ changes)) →
       noDanglingEdges (final (onNodesChange changes st)))
  ∧ (∀ changes,
       noDanglingEdges st →
       (∀ e, EdgeAdd e ∈ changes → endpointsIn (Node.id <$> State.nodes st) e) →
       noDanglingEdges (final (onEdgesChange changes st)))
  ∧ (∀ params,
       noDanglingEdges st →
       Connection.source params ∈ Node.id <$> State.nodes st →
       Connection.target params ∈ Node.id <$> State.nodes st →
       noDanglingEdges (final (onConnect params st)))
  ∧ (∀ a b,
       let st' := final (onNodesChange [NodeRemove a]
                           (final (onConnect (Connection.mk a b) st))) in
       (∃ e, e ∈ State.edges st' ∧ Edge.source e = a ∧ Edge.target e = b)
       ∧ a ∉ Node.id <$> State.nodes st').
Proof.
  unfold noDanglingEdges, onNodesChange, onEdgesChange, onConnect,
    setNodes, setEdges, final.
  cbn [fst snd State.nodes State.edges].
  split_and!; try done.
  - intros changes Hinv Hkeep.
    rewrite Forall_forall in Hinv. apply Forall_forall. intros e He.
    destruct (Hinv e He) as [Hs Ht]. destruct (Hkeep e He) as [Hks Hkt].
    split; by apply applyNodeChanges_keeps_id.
  - intros changes Hinv Hadd. by apply applyEdgeChanges_endpoints.
  - intros params Hinv Hs Ht. unfold addEdge.
    apply Forall_app. split; [done|]. by apply Forall_singleton.
  - intros a b. split; [|apply applyNodeChanges_remove_id].
    unfold addEdge. cbn [Connection.source Connection.target].
    eexists. split; [apply elem_of_app; right; apply list_elem_of_here | done].
Qed.

Lemma store_mutations_invariant_witness :
  noDanglingEdges
    (final (onNodesChange [NodeMove "node_0" (XYPosition.mk 5 5); NodeRemove "node_7"]
              twoNodesConnected)).
Proof.
  apply (proj1 (proj2 (proj2 (proj2 (store_mutations_invariant twoNodesConnected))))).
  - exact twoNodesConnected_noDangling.
  - intros e He. vm_compute in He. apply list_elem_of_singleton in He as ->.
    split; intros H;
      repeat (apply elem_of_cons in H as [H|H]; [discriminate|]);
      by apply elem_of_nil in H.
Defined.

(** C5. [connect] never refuses a parallel edge or a self-loop: two
    successive [connect(a, b)] append two edges from [a] to [b], with ids
    that differ from each other and from every id already in the edge list;
    [connect(a, a)] appends an edge from [a] to [a] with an id not yet in the
    list. *)
Theorem onConnect_parallel_and_self_loop (st : State) (a b : string) :
  let once := final (onConnect (Connection.mk a b) st) in
  let twice := final (onConnect (Connection.mk a b) once) in
  let loop := final (onConnect (Connection.mk a a) st) in
  (∃ e1 e2,
     State.edges twice = State.edges st ++ [e1; e2]
     ∧ Edge.source e1 = a ∧ Edge.target e1 = b
     ∧ Edge.source e2 = a ∧ Edge.target e2 = b
     ∧ Edge.id e1 ≠ Edge.id e2
     ∧ (Edge.id e1 ∉ Edge.id <$> State.edges st)
     ∧ (Edge.id e2 ∉ Edge.id <$> State.edges st))
  ∧ (∃ e,
       State.edges loop = State.edges st ++ [e]
       ∧ Edge.source e = a ∧ Edge.target e = a
       ∧ (Edge.id e ∉ Edge.id <$> State.edges st)).
Proof.
  cbn zeta. unfold onConnect, setEdges, final, addEdge.
  cbn [fst snd State.edges Connection.source Connection.target].
  set (eds := State.edges st).
  set (e1 := Edge.mk (fresh (Edge.id <$> eds)) a b None).
  pose proof (addEdge_fresh eds) as Hf1.
  pose proof (addEdge_fresh (eds ++ [e1])) as Hf2.
  set (i2 := fresh (Edge.id <$> eds ++ [e1])) in *.
  rewrite fmap_app in Hf2. cbn in Hf2.
  split.
  - exists e1, (Edge.mk i2 a b None). rewrite <- app_assoc. cbn [app].
    split_and!; try done; cbn [Edge.id e1].
    + intros Heq. apply Hf2. rewrite <- Heq.
      apply elem_of_app. right. apply list_elem_of_here.
    + intros Hin. apply Hf2. apply elem_of_app. by left.
  - eexists. split_and!; done.
Qed.

(** ** Sessions: node ids stay unique *)

Section sessions.

Lemma filter_ids_sublist (f : Node → bool) (nds : list Node) :
  Node.id <$> List.filter f nds `sublist_of` Node.id <$> nds.
Proof.
  induction nds as [|n nds IH]; [done|].
  cbn [List.filter]. destruct (f n); cbn [fmap list_fmap].
  - by apply sublist_skip.
  - by apply sublist_cons.
Qed.

(** A change other than an add yields ids that were already there, in the
    same order. *)
Lemma applyNodeChange_ids_sublist (c : NodeChange) (nds : list Node) :
  isNodeAdd c = false →
  Node.id <$> applyNodeChange nds c `sublist_of` Node.id <$> nds.
Proof.
  destruct c as [item|j|j p|j b]; cbn [applyNodeChange isNodeAdd]; intros Hc.
  - done.
  - apply filter_ids_sublist.
  - rewrite fmap_id_preserved; [done|]. intros n. by destruct (String.eqb _ _).
  - rewrite fmap_id_preserved; [done|]. intros n. by destruct (String.eqb _ _).
Qed.

Lemma applyNodeChanges_ids_sublist (changes : list NodeChange) (nds : list Node) :
  existsb isNodeAdd changes = false →
  Node.id <$> applyNodeChanges changes nds `sublist_of` Node.id <$> nds.
Proof.
  unfold applyNodeChanges. revert nds.
  induction changes as [|c changes IH]; intros nds Hno; [done|].
  cbn in Hno. apply orb_false_iff in Hno as [Hc Hno]. cbn [fold_left].
  etrans; [by apply IH | by apply applyNodeChange_ids_sublist].
Qed.

Lemma idsIssued_sublist (nds nds' : list Node) (c : nat) :
  Node.id <$> nds' `sublist_of` Node.id <$> nds →
  NoDup (Node.id <$> nds)
  ∧ Forall (λ i, ∃ k, k < c ∧ i = nodeId k) (Node.id <$> nds) →
  NoDup (Node.id <$> nds')
  ∧ Forall (λ i, ∃ k, k < c ∧ i = nodeId k) (Node.id <$> nds').
Proof.
  intros Hsub [Hnd Hall]. split.
  - by eapply sublist_NoDup.
  - rewrite Forall_forall in Hall. apply Forall_forall. intros i Hi.
    apply Hall. by eapply elem_of_sublist.
Qed.

(** What a drop does to the node list and the counter. *)
Lemma onDrop_cases (event : DragEvent) (st : State) :
  final (onDrop event st) = st
  ∨ ∃ n, State.nodes (final (onDrop event st)) = State.nodes st ++ [n]
         ∧ Node.id n = nodeId (State.id st)
         ∧ State.id (final (onDrop event st)) = S (State.id st).
Proof.
  destruct (State.reactFlowWrapper st) as [bounds|] eqn:Hwr;
    [|left; rewrite onDrop_unavailable; auto].
  destruct (State.reactFlowInstance st) as [instance|] eqn:Hinst;
    [|left; rewrite onDrop_unavailable; auto].
  destruct (decide (DragEvent.dataTransfer event = "")) as [Htype|Htype].
  - left. unfold onDrop, bind, get. by rewrite Htype.
  - right. rewrite (onDrop_ready event st bounds instance) by done.
    eexists. unfold final. cbn. done.
Qed.

(** Every event of an initialised editor keeps the node ids distinct and
    below the counter. *)
Lemma handle_idsIssued (ev : Event) (st : State) :
  editing ev = true → idsIssued st → idsIssued (final (handle ev st)).
Proof.
  unfold idsIssued. intros Hev Hst.
  destruct ev as [instance|node|newLabel| |changes|changes|params|event| | ];
    cbn [handle editing] in *; try done.
  - rewrite handleLabelChange_run. unfold final. cbn.
    rewrite fmap_id_preserved; [done|]. intros n. by destruct (isSelected _ _).
  - apply negb_true_iff in Hev.
    unfold onNodesChange, setNodes, final. cbn.
    eapply idsIssued_sublist; [|done]. by apply applyNodeChanges_ids_sublist.
  - destruct (onDrop_cases event st) as [->|(n & Hn & Hid & Hc)]; [done|].
    rewrite Hn, Hc, fmap_app. cbn [fmap list_fmap]. rewrite Hid.
    destruct Hst as [Hnd Hall]. rewrite Forall_forall in Hall. split.
    + apply NoDup_app. split_and!; [done| |apply NoDup_singleton].
      intros i Hi Hnew. apply list_elem_of_singleton in Hnew.
      destruct (Hall i Hi) as (k & Hk & ->).
      apply nodeId_inj in Hnew. lia.
    + apply Forall_app. split.
      * apply Forall_forall. intros i Hi.
        destruct (Hall i Hi) as (k & Hk & ->). exists k. split; [lia|done].
      * apply Forall_singleton. exists (State.id st). split; [lia|done].
  - by rewrite handleSave_run.
Qed.

(** From a state whose node ids are distinct and issued (the empty editor in
    particular), a session of such events keeps them so. *)
Lemma session_idsIssued (evs : list Event) (st : State) :
  forallb editing evs = true → idsIssued st → idsIssued (final (session evs st)).
Proof.
  revert st. induction evs as [|ev evs IH]; intros st Hevs Hst; [done|].
  cbn in Hevs. apply andb_true_iff in Hevs as [Hev Hevs].
  cbn [session]. unfold bind, final.
  pose proof (handle_idsIssued ev st Hev Hst) as Hstep. unfold final in Hstep.
  destruct (handle ev st) as [[[] st1] out1]. cbn in Hstep.
  specialize (IH st1 Hevs Hstep). unfold final in IH.
  by destruct (session evs st1) as [[[] st2] out2].
Qed.

Lemma idsIssued_no_nodes (st : State) : State.nodes st = [] → idsIssued st.
Proof. unfold idsIssued. intros ->. split; constructor. Qed.

End sessions.

(** ** Scenarios *)

Example scenarioA_fails : toasts (handleSave scenarioA) = [toastFailed].
Proof. reflexivity. Qed.

Example scenarioB_saved : toasts (handleSave scenarioB) = [toastSaved].
Proof. reflexivity. Qed.

Example scenarioC_saved : toasts (handleSave scenarioC) = [toastSaved].
Proof. reflexivity. Qed.

Example scenarioCycle_saved : toasts (handleSave scenarioCycle) = [toastSaved].
Proof. reflexivity. Qed.

Example initialState_saved : toasts (handleSave initialState) = [toastSaved].
Proof. reflexivity. Qed.

(** Two drops on the ready editor give [node_0] and [node_1], labelled with
    the counter values 1 and 2. *)
Example twoNodes_ids :
  (λ n, (Node.id n, NodeData.label (Node.data n))) <$> State.nodes twoNodes
  = [("node_0", "1 Node"); ("node_1", "2 Node")].
Proof. reflexivity. Qed.

(** Scenario E on [scenarioB]: select N2, type "Hello", remove N2. *)
Example scenarioE_no_active_node :
  let clicked := final (onNodeClick (messageNode "N2") scenarioB) in
  let edited := final (handleLabelChange "Hello" clicked) in
  let removed := final (onNodesChange [NodeRemove "N2"] edited) in
  (NodeData.label ∘ Node.data <$> selectedNode edited) = Some "Hello"
  ∧ selectedNode removed = None
  ∧ State.selectedNodeId removed = Some "N2".
Proof. by vm_compute. Qed.

(** A drop without payload is ignored even on a ready canvas. *)
Example drop_without_type_ignored :
  onDrop (DragEvent.mk 120 80 "") readyState = (tt, readyState, []).
Proof. reflexivity. Qed.

(** ** Dropping nodes: when and what *)

Section drops.

(** The state after a drop on a ready canvas, with the node literal named. *)
Lemma onDrop_ready_node (event : DragEvent) (st : State)
    (bounds : DOMRect) (instance : ReactFlowInstance) :
  DragEvent.dataTransfer event ≠ "" →
  State.reactFlowWrapper st = Some bounds →
  State.reactFlowInstance st = Some instance →
  onDrop event st =
    (tt,
     State.mk (State.nodes st ++ [droppedNode instance bounds (State.id st) event])
       (State.edges st) (State.selectedNodeId st)
       (State.reactFlowInstance st) (State.reactFlowWrapper st) (S (State.id st)),
     []).
Proof. intros Htype Hwr Hinst. by rewrite (onDrop_ready event st bounds instance). Qed.

Lemma onDrop_no_type (event : DragEvent) (st : State) :
  DragEvent.dataTransfer event = "" → onDrop event st = (tt, st, []).
Proof. intros Htype. unfold onDrop, bind, get. by rewrite Htype. Qed.

End drops.

(** X1. A drop adds a node exactly when it carries a non-empty payload, the
    wrapper is mounted and the flow instance is known; in every other case
    the whole state is left as it was.  A drop never notifies. *)
Theorem onDrop_creates_iff (event : DragEvent) (st : State) :
  let ready :=
    DragEvent.dataTransfer event ≠ ""
    ∧ is_Some (State.reactFlowWrapper st)
    ∧ is_Some (State.reactFlowInstance st) in
  (length (State.nodes (final (onDrop event st))) = S (length (State.nodes st)) ↔ ready)
  ∧ (State.nodes (final (onDrop event st)) ≠ State.nodes st ↔ ready)
  ∧ (¬ ready → final (onDrop event st) = st)
  ∧ toasts (onDrop event st) = [].
Proof.
  cbn zeta.
  destruct (decide (DragEvent.dataTransfer event = "")) as [Htype|Htype].
  { rewrite onDrop_no_type by done. unfold final, toasts. cbn.
    split_and!; try done; split; try lia; try done; by intros [? _]. }
  destruct (State.reactFlowWrapper st) as [bounds|] eqn:Hwr.
  2:{ rewrite onDrop_unavailable by auto. unfold final, toasts. cbn.
      split_and!; try done; split; try lia; try done;
        intros (_ & Hw & _); by destruct Hw. }
  destruct (State.reactFlowInstance st) as [instance|] eqn:Hinst.
  2:{ rewrite onDrop_unavailable by auto. unfold final, toasts. cbn.
      split_and!; try done; split; try lia; try done;
        intros (_ & _ & Hi); by destruct Hi. }
  rewrite (onDrop_ready_node event st bounds instance) by done.
  unfold final, toasts. cbn [fst snd State.nodes].
  assert (Hready : DragEvent.dataTransfer event ≠ ""
                   ∧ is_Some (Some bounds) ∧ is_Some (Some instance))
    by (split_and!; [done|by eexists..]).
  split_and!; try done.
  - split; [done|]. intros _. rewrite length_app. cbn. lia.
  - split; [done|]. intros _ Heq. apply (f_equal length) in Heq.
    rewrite length_app in Heq. cbn in Heq. lia.
Qed.

(** X2. A drop on a ready canvas appends exactly one node behind the nodes that
    are already there: its id comes from the counter, its type is the
    payload as it is, its position is what the instance makes of the pointer
    position relative to the wrapper, its label is the placeholder of the
    advanced counter.  Nothing else of the state changes but the counter,
    which advances by one. *)
Theorem onDrop_appends (event : DragEvent) (st : State)
    (bounds : DOMRect) (instance : ReactFlowInstance) :
  DragEvent.dataTransfer event ≠ "" →
  State.reactFlowWrapper st = Some bounds →
  State.reactFlowInstance st = Some instance →
  let st' := final (onDrop event st) in
  ∃ n,
    State.nodes st' = State.nodes st ++ [n]
    ∧ Node.id n = nodeId (State.id st)
    ∧ Node.type n = DragEvent.dataTransfer event
    ∧ Node.position n =
        ReactFlowInstance.screenToFlowPosition instance
          (XYPosition.mk
             (DragEvent.clientX event - DOMRect.left bounds)%float
             (DragEvent.clientY event - DOMRect.top bounds)%float)
    ∧ NodeData.label (Node.data n) = pretty (S (State.id st)) +:+ " Node"
    ∧ Node.selected n = None
    ∧ (∀ k m, State.nodes st !! k = Some m → State.nodes st' !! k = Some m)
    ∧ State.edges st' = State.edges st
    ∧ State.selectedNodeId st' = State.selectedNodeId st
    ∧ State.reactFlowInstance st' = State.reactFlowInstance st
    ∧ State.reactFlowWrapper st' = State.reactFlowWrapper st
    ∧ State.id st' = S (State.id st).
Proof.
  intros Htype Hwr Hinst. cbn zeta.
  rewrite (onDrop_ready_node event st bounds instance) by done.
  unfold final. cbn [fst snd].
  exists (droppedNode instance bounds (State.id st) event).
  split_and!; try done.
  intros k m Hk. cbn. by apply lookup_app_l_Some.
Qed.

Lemma onDrop_appends_witness :
  ∃ n, State.nodes (final (onDrop dropDefault readyState)) = [n]
       ∧ Node.id n = "node_0" ∧ Node.type n = "default".
Proof.
  destruct (onDrop_appends dropDefault readyState (DOMRect.mk 20 10) identityInstance)
    as (n & Hn & Hid & Hty & _); [done..|].
  exists n. split_and!; [exact Hn | exact Hid | exact Hty].
Defined.

(** X3. Successive drops on a ready canvas append their nodes in drop order; the
    k-th of them (from 0) gets the id of counter value [c + k] and the
    placeholder label of [c + k + 1], where [c] is the counter before the
    first drop.  The counter ends at [c] plus the number of drops. *)
Theorem drops_in_sequence (events : list DragEvent) (st : State)
    (bounds : DOMRect) (instance : ReactFlowInstance) :
  Forall (λ e, DragEvent.dataTransfer e ≠ "") events →
  State.reactFlowWrapper st = Some bounds →
  State.reactFlowInstance st = Some instance →
  let st' := final (session (Drop <$> events) st) in
  State.nodes st' =
    State.nodes st ++
      imap (λ k e, droppedNode instance bounds (State.id st + k) e) events
  ∧ State.id st' = State.id st + length events
  ∧ State.edges st' = State.edges st
  ∧ State.selectedNodeId st' = State.selectedNodeId st.
Proof.
  cbn zeta. revert st.
  induction events as [|e events IH]; intros st Hall Hwr Hinst.
  - unfold final. cbn. rewrite app_nil_r. split_and!; [done|lia|done..].
  - apply Forall_cons in Hall as [He Hall].
    cbn [fmap list_fmap session handle]. unfold bind, final.
    rewrite (onDrop_ready_node e st bounds instance) by done.
    set (st1 := State.mk _ _ _ _ _ _).
    specialize (IH st1 Hall Hwr Hinst). unfold final in IH.
    destruct (session (Drop <$> events) st1) as [[[] st2] out2].
    cbn [fst snd] in *. destruct IH as (Hn & Hc & He' & Hs).
    rewrite Hn, Hc, He', Hs. subst st1.
    cbn [State.nodes State.id State.edges State.selectedNodeId length].
    rewrite imap_cons, <- app_assoc. cbn [app].
    split_and!; [|lia|done..].
    rewrite Nat.add_0_r. do 2 f_equal. apply imap_ext. intros k x _. cbn.
    f_equal. lia.
Qed.

Lemma drops_in_sequence_witness :
  (λ n, (Node.id n, NodeData.label (Node.data n)))
    <$> State.nodes (final (session (Drop <$> [dropDefault; dropDefault; dropDefault])
                              readyState))
  = [("node_0", "1 Node"); ("node_1", "2 Node"); ("node_2", "3 Node")].
Proof.
  rewrite (proj1 (drops_in_sequence [dropDefault; dropDefault; dropDefault] readyState
                    (DOMRect.mk 20 10) identityInstance
                    ltac:(repeat constructor; done) eq_refl eq_refl)).
  reflexivity.
Defined.

Section reissue.

(** No event of an initialised editor lowers the counter. *)
Lemma handle_counter_mono (ev : Event) (st : State) :
  editing ev = true → State.id st ≤ State.id (final (handle ev st)).
Proof.
  destruct ev as [instance|node|newLabel| |changes|changes|params|event| | ];
    cbn [handle editing]; intros Hev; try done;
    try (rewrite handleLabelChange_run; done);
    try (rewrite handleSave_run; done).
  destruct (onDrop_cases event st) as [->|(n & _ & _ & ->)]; lia.
Qed.

(** An id below the counter that is not in the node list does not enter it
    through any event of an initialised editor. *)
Lemma handle_absent_stays (ev : Event) (st : State) (k : nat) :
  editing ev = true →
  k < State.id st →
  nodeId k ∉ Node.id <$> State.nodes st →
  nodeId k ∉ Node.id <$> State.nodes (final (handle ev st)).
Proof.
  destruct ev as [instance|node|newLabel| |changes|changes|params|event| | ];
    cbn [handle editing]; intros Hev Hk Hout; try done.
  - rewrite handleLabelChange_run. unfold final. cbn [fst snd State.nodes].
    rewrite fmap_id_preserved; [done|]. intros n. by destruct (isSelected _ _).
  - apply negb_true_iff in Hev. unfold onNodesChange, setNodes, final.
    cbn [fst snd State.nodes]. intros Hin. apply Hout.
    eapply elem_of_sublist; [exact Hin|]. by apply applyNodeChanges_ids_sublist.
  - destruct (onDrop_cases event st) as [->|(n & -> & Hid & _)]; [done|].
    rewrite fmap_app. cbn [fmap list_fmap]. rewrite Hid.
    intros [Hin|Hin]%elem_of_app; [done|].
    apply list_elem_of_singleton, nodeId_inj in Hin. lia.
  - by rewrite handleSave_run.
Qed.

Lemma session_absent_stays (evs : list Event) (st : State) (k : nat) :
  forallb editing evs = true →
  k < State.id st →
  nodeId k ∉ Node.id <$> State.nodes st →
  k < State.id (final (session evs st))
  ∧ nodeId k ∉ Node.id <$> State.nodes (final (session evs st)).
Proof.
  revert st. induction evs as [|ev evs IH]; intros st Hevs Hk Hout; [done|].
  cbn in Hevs. apply andb_true_iff in Hevs as [Hev Hevs].
  pose proof (handle_counter_mono ev st Hev) as Hmono.
  pose proof (handle_absent_stays ev st k Hev Hk Hout) as Hstep.
  cbn [session]. unfold bind, final in *.
  destruct (handle ev st) as [[[] st1] out1]. cbn [fst snd] in *.
  assert (Hk1 : k < State.id st1) by lia.
  specialize (IH st1 Hevs Hk1 Hstep).
  by destruct (session evs st1) as [[[] st2] out2].
Qed.

Lemma session_counter_mono (evs : list Event) (st : State) :
  forallb editing evs = true → State.id st ≤ State.id (final (session evs st)).
Proof.
  revert st. induction evs as [|ev evs IH]; intros st Hevs; [done|].
  cbn in Hevs. apply andb_true_iff in Hevs as [Hev Hevs].
  pose proof (handle_counter_mono ev st Hev) as Hmono.
  cbn [session]. unfold bind, final in *.
  destruct (handle ev st) as [[[] st1] out1]. cbn [fst snd] in *.
  specialize (IH st1 Hevs).
  destruct (session evs st1) as [[[] st2] out2]. cbn [fst snd] in *. lia.
Qed.

End reissue.

(** X4. In a session of an initialised editor whose nodes all come from drops
    (no further [onInit], no add change), the node ids stay pairwise
    distinct whatever is removed, moved, selected, connected or relabelled in
    between, the id that the next drop will issue is not in the list, and an
    id that was in the list and has left it never comes back: no later drop
    issues it again. *)
Theorem session_unique_node_ids (evs1 evs2 evs3 : list Event) (st : State) :
  forallb editing evs1 = true →
  forallb editing evs2 = true →
  forallb editing evs3 = true →
  State.nodes st = [] →
  let s1 := final (session evs1 st) in
  let s2 := final (session evs2 s1) in
  let s3 := final (session evs3 s2) in
  NoDup (Node.id <$> State.nodes s1)
  ∧ (nodeId (State.id s1) ∉ Node.id <$> State.nodes s1)
  ∧ (∀ i, i ∈ Node.id <$> State.nodes s1 →
          i ∉ Node.id <$> State.nodes s2 →
          i ∉ Node.id <$> State.nodes s3).
Proof.
  intros Hevs1 Hevs2 Hevs3 Hnil. cbn zeta.
  destruct (session_idsIssued evs1 st Hevs1 (idsIssued_no_nodes st Hnil)) as [Hnd Hall].
  rewrite Forall_forall in Hall.
  split_and!.
  - done.
  - intros Hin. destruct (Hall _ Hin) as (k & Hk & Heq).
    apply nodeId_inj in Heq. lia.
  - intros i Hin1 Hout2. destruct (Hall _ Hin1) as (k & Hk & ->).
    pose proof (session_counter_mono evs2 (final (session evs1 st)) Hevs2) as Hmono.
    apply session_absent_stays; [done|lia|done].
Qed.

Lemma session_unique_node_ids_witness :
  let s1 := final (session [Drop dropDefault; Drop dropDefault] readyState) in
  let s2 := final (session [NodesChange [NodeRemove "node_0"]] s1) in
  let s3 := final (session [Drop dropDefault; Drop dropDefault] s2) in
  Node.id <$> State.nodes s1 = ["node_0"; "node_1"]
  ∧ Node.id <$> State.nodes s2 = ["node_1"]
  ∧ Node.id <$> State.nodes s3 = ["node_1"; "node_2"; "node_3"]
  ∧ "node_0" ∉ Node.id <$> State.nodes s3.
Proof.
  split_and!; [reflexivity..|].
  apply (proj2 (proj2 (session_unique_node_ids
                         [Drop dropDefault; Drop dropDefault]
                         [NodesChange [NodeRemove "node_0"]]
                         [Drop dropDefault; Drop dropDefault]
                         readyState eq_refl eq_refl eq_refl eq_refl))).
  - apply list_elem_of_here.
  - intros H. apply list_elem_of_singleton in H. discriminate.
Defined.

(** ** Save-time validation: further results *)

Section validation_order.

Lemma filter_length_bound {A} (f : A → bool) (l : list A) :
  length (List.filter f l) ≤ length l.
Proof.
  induction l as [|a l IH]; [done|]. cbn. destruct (f a); cbn; lia.
Qed.

(** The failure notification is decided by the number of root candidates
    alone. *)
Lemma handleSave_failed_iff (st : State) :
  toasts (handleSave st) = [toastFailed]
  ↔ 1 < length (nodesWithNoIncoming (State.nodes st) (State.edges st)).
Proof.
  rewrite handleSave_run. unfold toasts. cbn [snd].
  pose proof (filter_length_bound (hasNoIncoming (State.edges st)) (State.nodes st)) as Hle.
  fold (nodesWithNoIncoming (State.nodes st) (State.edges st)) in Hle.
  destruct (_ && _) eqn:Hb.
  - apply andb_true_iff in Hb as [_ Hr]. apply Nat.ltb_lt in Hr. done.
  - split; [done|]. intros Hlt.
    apply andb_false_iff in Hb as [Hn|Hr].
    + apply Nat.ltb_ge in Hn. lia.
    + apply Nat.ltb_ge in Hr. lia.
Qed.

Lemma handleSave_saved_iff (st : State) :
  toasts (handleSave st) = [toastSaved]
  ↔ length (nodesWithNoIncoming (State.nodes st) (State.edges st)) ≤ 1.
Proof.
  pose proof (handleSave_failed_iff st) as Hf.
  rewrite handleSave_run in *. unfold toasts in *. cbn [snd] in *.
  destruct (_ && _).
  - split; [done|]. intros Hle. assert (1 < length (nodesWithNoIncoming (State.nodes st) (State.edges st)))
      by by apply Hf. lia.
  - split; [|done]. intros _.
    destruct (decide (1 < length (nodesWithNoIncoming (State.nodes st) (State.edges st))))
      as [Hlt|Hlt]; [|lia].
    apply Hf in Hlt. done.
Qed.

(** Fewer nodes and a weaker test give fewer root candidates. *)
Lemma filter_length_sublist {A} (f g : A → bool) (l1 l2 : list A) :
  l1 `sublist_of` l2 →
  (∀ a, f a = true → g a = true) →
  length (List.filter f l1) ≤ length (List.filter g l2).
Proof.
  intros Hsub Hfg.
  induction Hsub as [|x l1 l2 _ IH|x l1 l2 _ IH]; cbn.
  - done.
  - destruct (f x) eqn:Hf.
    + rewrite (Hfg x Hf). cbn. lia.
    + destruct (g x); cbn; lia.
  - destruct (g x); cbn; lia.
Qed.

End validation_order.

(** X5. The first half of the test of [handleSave] never decides: saving fails
    exactly when more than one node of the list has no incoming edge, and
    succeeds exactly when at most one has none.  Without edges every node is
    a root candidate, so saving fails exactly when there is more than one
    node. *)
Theorem handleSave_fails_iff_two_roots (st : State) :
  (toasts (handleSave st) = [toastFailed]
     ↔ 1 < length (nodesWithNoIncoming (State.nodes st) (State.edges st)))
  ∧ (toasts (handleSave st) = [toastSaved]
     ↔ length (nodesWithNoIncoming (State.nodes st) (State.edges st)) ≤ 1)
  ∧ (State.edges st = [] →
     (toasts (handleSave st) = [toastFailed] ↔ 1 < length (State.nodes st))).
Proof.
  split; [apply handleSave_failed_iff|].
  split; [apply handleSave_saved_iff|].
  intros Hnil. rewrite handleSave_failed_iff, Hnil.
  unfold nodesWithNoIncoming.
  assert (Hall : List.filter (hasNoIncoming []) (State.nodes st) = State.nodes st).
  { induction (State.nodes st) as [|n nds IH]; [done|]. cbn. by rewrite IH. }
  by rewrite Hall.
Qed.

(** X6. Saving stays successful when nodes are taken out of the list and when
    edges are added: if a graph saves, so does every graph whose node list is
    a sub-list of it and whose edges target at least the same ids. *)
Theorem handleSave_success_monotone (st st' : State) :
  State.nodes st' `sublist_of` State.nodes st →
  (∀ t, t ∈ Edge.target <$> State.edges st → t ∈ Edge.target <$> State.edges st') →
  toasts (handleSave st) = [toastSaved] →
  toasts (handleSave st') = [toastSaved].
Proof.
  intros Hsub Htgt. rewrite !handleSave_saved_iff. intros Hle.
  etrans; [|exact Hle]. unfold nodesWithNoIncoming.
  apply filter_length_sublist; [done|].
  intros n. rewrite !hasNoIncoming_targets, !negb_true_iff.
  rewrite <- !not_true_iff_false, !existsb_eqb_elem_of. intros Hno Hin.
  apply Hno, Htgt, Hin.
Qed.

Lemma handleSave_success_monotone_witness :
  toasts (handleSave
            (State.mk [messageNode "N2"]
               [Edge.mk "e1" "N1" "N2" None; Edge.mk "e2" "N2" "N2" None]
               None None None 0))
  = [toastSaved].
Proof.
  apply (handleSave_success_monotone scenarioB).
  - apply sublist_cons. reflexivity.
  - intros t Ht. vm_compute in Ht. apply list_elem_of_singleton in Ht as ->.
    vm_compute. apply list_elem_of_here.
  - reflexivity.
Defined.

(** X7. A label edit changes no id, so it changes neither the verdict of the
    validation nor whether the edges are attached to nodes. *)
Theorem handleLabelChange_keeps_graph_shape (newLabel : string) (st : State) :
  let st' := final (handleLabelChange newLabel st) in
  Node.id <$> State.nodes st' = Node.id <$> State.nodes st
  ∧ toasts (handleSave st') = toasts (handleSave st)
  ∧ (noDanglingEdges st' ↔ noDanglingEdges st).
Proof.
  cbn zeta.
  assert (Hids : Node.id <$> State.nodes (final (handleLabelChange newLabel st))
                 = Node.id <$> State.nodes st).
  { rewrite handleLabelChange_run. unfold final. cbn [fst snd State.nodes].
    apply fmap_id_preserved. intros n. by destruct (isSelected _ _). }
  assert (Heds : State.edges (final (handleLabelChange newLabel st)) = State.edges st)
    by by rewrite handleLabelChange_run.
  split_and!.
  - done.
  - apply handleSave_toasts_invariant; [by rewrite Hids | by rewrite Heds].
  - unfold noDanglingEdges. by rewrite Hids, Heds.
Qed.

(** X8. In a graph built by drops, with every edge attached to nodes, a further
    drop adds exactly one root candidate, the new node: so saving fails right
    after the drop exactly when the graph already had a root candidate.  The
    graph keeps both properties. *)
Theorem onDrop_adds_root_candidate (event : DragEvent) (st : State)
    (bounds : DOMRect) (instance : ReactFlowInstance) :
  DragEvent.dataTransfer event ≠ "" →
  State.reactFlowWrapper st = Some bounds →
  State.reactFlowInstance st = Some instance →
  idsIssued st →
  noDanglingEdges st →
  let st' := final (onDrop event st) in
  nodesWithNoIncoming (State.nodes st') (State.edges st')
    = nodesWithNoIncoming (State.nodes st) (State.edges st)
        ++ [droppedNode instance bounds (State.id st) event]
  ∧ (toasts (handleSave st') = [toastFailed]
     ↔ nodesWithNoIncoming (State.nodes st) (State.edges st) ≠ [])
  ∧ idsIssued st'
  ∧ noDanglingEdges st'.
Proof.
  intros Htype Hwr Hinst Hids Hinv. cbn zeta.
  pose proof (handle_idsIssued (Drop event) st eq_refl Hids) as Hids'.
  cbn [handle] in Hids'. revert Hids'.
  rewrite handleSave_failed_iff.
  rewrite (onDrop_ready_node event st bounds instance) by done.
  unfold final. cbn [fst snd State.nodes State.edges]. intros Hids'.
  assert (Hnew : hasNoIncoming (State.edges st)
                   (droppedNode instance bounds (State.id st) event) = true).
  { apply hasNoIncoming_true. intros e He Heq. cbn in Heq.
    unfold noDanglingEdges in Hinv. rewrite Forall_forall in Hinv.
    destruct (Hinv e He) as [_ Ht]. rewrite Heq in Ht.
    destruct Hids as [_ Hall]. rewrite Forall_forall in Hall.
    destruct (Hall _ Ht) as (k & Hk & Hnk). apply nodeId_inj in Hnk. lia. }
  assert (Hroots : nodesWithNoIncoming
                     (State.nodes st ++ [droppedNode instance bounds (State.id st) event])
                     (State.edges st)
                   = nodesWithNoIncoming (State.nodes st) (State.edges st)
                       ++ [droppedNode instance bounds (State.id st) event]).
  { unfold nodesWithNoIncoming. rewrite List.filter_app. cbn [List.filter]. by rewrite Hnew. }
  split_and!.
  - done.
  - rewrite Hroots, length_app. cbn [length].
    destruct (nodesWithNoIncoming (State.nodes st) (State.edges st)); cbn; split; try done; lia.
  - done.
  - unfold noDanglingEdges in *. cbn [State.nodes State.edges].
    eapply Forall_impl; [exact Hinv|]. intros e [Hs Ht]. rewrite fmap_app.
    split; apply elem_of_app; by left.
Qed.

Lemma onDrop_adds_root_candidate_witness :
  toasts (handleSave (final (onDrop dropDefault (final (onDrop dropDefault readyState)))))
  = [toastFailed].
Proof.
  apply (proj1 (proj2 (onDrop_adds_root_candidate dropDefault
                         (final (onDrop dropDefault readyState))
                         (DOMRect.mk 20 10) identityInstance
                         ltac:(done) eq_refl eq_refl
                         (handle_idsIssued (Drop dropDefault) readyState eq_refl
                            (idsIssued_no_nodes readyState eq_refl))
                         (Forall_nil_2 _)))).
  vm_compute. discriminate.
Defined.

(** ** Selection and side panel: further results *)

Section lookup.

(** With pairwise distinct ids, the lookup by the id of a node of the list
    finds that very node. *)
Lemma find_isSelected_unique (node : Node) (nds : list Node) :
  NoDup (Node.id <$> nds) → node ∈ nds →
  List.find (isSelected (Some (Node.id node))) nds = Some node.
Proof.
  induction nds as [|n nds IH]; intros Hnd Hin; [by apply elem_of_nil in Hin|].
  cbn in Hnd. apply NoDup_cons in Hnd as [Hn Hnd].
  cbn [List.find]. apply elem_of_cons in Hin as [->|Hin].
  - assert (Hsel : isSelected (Some (Node.id n)) n = true) by by apply isSelected_true.
    by rewrite Hsel.
  - destruct (isSelected (Some (Node.id node)) n) eqn:Hsel; [|by apply IH].
    apply isSelected_true in Hsel. injection Hsel as Heq.
    destruct Hn. rewrite <- Heq. by apply list_elem_of_fmap_2.
Qed.

(** The lookup after a label edit finds the node it found before, with the
    new label. *)
Lemma find_isSelected_withLabel (sel : option string) (newLabel : string)
    (nds : list Node) (node : Node) :
  List.find (isSelected sel) nds = Some node →
  List.find (isSelected sel)
    ((λ n, if isSelected sel n then withLabel newLabel n else n) <$> nds)
  = Some (withLabel newLabel node).
Proof.
  induction nds as [|n nds IH]; intros Hfind; [done|].
  cbn [List.find fmap list_fmap] in *.
  destruct (isSelected sel n) eqn:Hn.
  - assert (Hsel : isSelected sel (withLabel newLabel n) = true) by done.
    rewrite Hsel. congruence.
  - rewrite Hn. by apply IH.
Qed.

Lemma find_isSelected_is_Some (sel : option string) (nds : list Node) :
  is_Some (List.find (isSelected sel) nds)
  ↔ ∃ i, sel = Some i ∧ i ∈ Node.id <$> nds.
Proof.
  split.
  - intros [n Hn]. apply find_some in Hn as [Hin Hsel].
    apply isSelected_true in Hsel. exists (Node.id n). split; [done|].
    by apply list_elem_of_fmap_2, list_elem_of_In.
  - intros (i & -> & Hi). apply list_elem_of_fmap in Hi as (n & -> & Hn).
    destruct (List.find (isSelected (Some (Node.id n))) nds) as [m|] eqn:Hfind; [by eexists|].
    eapply find_none in Hfind; [|by apply list_elem_of_In].
    apply isSelected_false in Hfind. done.
Qed.

End lookup.

(** X9. Clicking a node of a list with pairwise distinct ids makes that very
    node the selected node, so the settings panel opens on its label. *)
Theorem onNodeClick_selects (node : Node) (st : State) :
  NoDup (Node.id <$> State.nodes st) →
  node ∈ State.nodes st →
  let st' := final (onNodeClick node st) in
  selectedNode st' = Some node
  ∧ sidePanel st' = SettingsPanel (NodeData.label (Node.data node))
  ∧ State.nodes st' = State.nodes st
  ∧ State.edges st' = State.edges st.
Proof.
  intros Hnd Hin. cbn zeta.
  assert (Hsel : selectedNode (final (onNodeClick node st)) = Some node)
    by by apply find_isSelected_unique.
  unfold sidePanel. by rewrite Hsel.
Qed.

Lemma onNodeClick_selects_witness :
  selectedNode (final (onNodeClick (messageNode "N2") scenarioB))
  = Some (messageNode "N2").
Proof.
  apply (onNodeClick_selects (messageNode "N2") scenarioB).
  - vm_compute. repeat constructor; intros H;
      repeat (apply elem_of_cons in H as [H|H]; [discriminate|]);
      by apply elem_of_nil in H.
  - apply list_elem_of_further, list_elem_of_here.
Defined.

(** X10. The settings panel is rendered exactly when a node of the list carries
    the selected id, and the nodes panel (with "Save Flow" and the palette)
    otherwise.  While the settings panel is open, a label edit is shown back
    in its input, and "Save name" closes it without touching the graph. *)
Theorem sidePanel_settings_iff (st : State) :
  ((∃ value, sidePanel st = SettingsPanel value)
     ↔ ∃ i, State.selectedNodeId st = Some i ∧ i ∈ Node.id <$> State.nodes st)
  ∧ ((∃ palette, sidePanel st = NodesPanel palette)
     ↔ ∀ n, n ∈ State.nodes st → State.selectedNodeId st ≠ Some (Node.id n))
  ∧ (∀ value newLabel,
       sidePanel st = SettingsPanel value →
       sidePanel (final (handleLabelChange newLabel st)) = SettingsPanel newLabel)
  ∧ (∃ palette, sidePanel (final (onSaveName st)) = NodesPanel palette)
  ∧ State.nodes (final (onSaveName st)) = State.nodes st
  ∧ State.edges (final (onSaveName st)) = State.edges st.
Proof.
  split_and!; try done.
  - rewrite <- find_isSelected_is_Some. fold (selectedNode st).
    unfold sidePanel. destruct (selectedNode st); split.
    + by eexists.
    + by eexists.
    + by intros [? ?].
    + by intros [? ?].
  - unfold sidePanel. destruct (selectedNode st) as [m|] eqn:Hsel.
    + split; [by intros [? ?]|]. intros Hno.
      apply find_some in Hsel as [Hin Hm]. apply isSelected_true in Hm.
      destruct (Hno m); [by apply list_elem_of_In | done].
    + split; [|by eexists]. intros _ n Hn.
      eapply find_none in Hsel; [|by apply list_elem_of_In].
      by apply isSelected_false in Hsel.
  - intros value newLabel. unfold sidePanel.
    destruct (selectedNode st) as [m|] eqn:Hsel; [|done]. intros _.
    assert (Hnew : selectedNode (final (handleLabelChange newLabel st))
                   = Some (withLabel newLabel m)).
    { rewrite handleLabelChange_run. unfold selectedNode, final.
      cbn [fst snd State.nodes State.selectedNodeId].
      by apply find_isSelected_withLabel. }
    by rewrite Hnew.
  - unfold sidePanel, selectedNode, onSaveName, setSelectedNodeId, final.
    cbn [fst snd State.nodes State.selectedNodeId].
    assert (Hnone : List.find (isSelected None) (State.nodes st) = None).
    { induction (State.nodes st) as [|n nds IH]; [done|]. done. }
    rewrite Hnone. by eexists.
Qed.

(** X11. Typing twice keeps the last text only: a label edit followed by a second
    one gives the state of the second edit alone; an edit repeated with the
    same text changes nothing more. *)
Theorem handleLabelChange_last_wins (l1 l2 : string) (st : State) :
  final (handleLabelChange l2 (final (handleLabelChange l1 st)))
    = final (handleLabelChange l2 st)
  ∧ final (handleLabelChange l1 (final (handleLabelChange l1 st)))
    = final (handleLabelChange l1 st).
Proof.
  assert (H : ∀ a b,
             final (handleLabelChange b (final (handleLabelChange a st)))
             = final (handleLabelChange b st)).
  { intros a b. rewrite !handleLabelChange_run. unfold final.
    cbn [fst snd State.nodes State.edges State.selectedNodeId
         State.reactFlowInstance State.reactFlowWrapper State.id].
    f_equal. rewrite <- list_fmap_compose. apply list_fmap_ext.
    intros _ n _. cbn.
    destruct (isSelected (State.selectedNodeId st) n) eqn:Hn.
    - assert (Hsel : isSelected (State.selectedNodeId st) (withLabel a n) = true) by done.
      by rewrite Hsel.
    - by rewrite Hn. }
  split; apply H.
Qed.

(** ** Which handler writes what *)

Section frames.

(** A drop writes the node list and the counter only, and never notifies. *)
Lemma onDrop_frame (event : DragEvent) (st : State) :
  State.edges (final (onDrop event st)) = State.edges st
  ∧ State.selectedNodeId (final (onDrop event st)) = State.selectedNodeId st
  ∧ State.reactFlowInstance (final (onDrop event st)) = State.reactFlowInstance st
  ∧ State.reactFlowWrapper (final (onDrop event st)) = State.reactFlowWrapper st
  ∧ toasts (onDrop event st) = [].
Proof.
  destruct (decide (DragEvent.dataTransfer event = "")) as [Htype|Htype];
    [by rewrite onDrop_no_type|].
  destruct (State.reactFlowWrapper st) as [bounds|] eqn:Hwr;
    [|by rewrite onDrop_unavailable by auto].
  destruct (State.reactFlowInstance st) as [instance|] eqn:Hinst;
    [|by rewrite onDrop_unavailable by auto].
  by rewrite (onDrop_ready_node event st bounds instance).
Qed.

End frames.

(** X12. Each part of the editor state has few writers: only [handleSave]
    notifies; the selection changes only on a node click or "Save name" (so
    never through a change-set or a drop); the edge list only through an edge
    change-set or a connect; the node list only through a node change-set, a
    label edit or a drop; the counter only through a drop or [onInit]; the
    flow instance only through [onInit]; the wrapper through none. *)
Theorem handle_frame (ev : Event) (st : State) :
  let st' := final (handle ev st) in
  (toasts (handle ev st) ≠ [] → ev = Save)
  ∧ (State.selectedNodeId st' ≠ State.selectedNodeId st →
     (∃ node, ev = NodeClick node) ∨ ev = SaveName)
  ∧ (State.edges st' ≠ State.edges st →
     (∃ changes, ev = EdgesChange changes) ∨ (∃ params, ev = Connect params))
  ∧ (State.nodes st' ≠ State.nodes st →
     (∃ changes, ev = NodesChange changes)
     ∨ (∃ newLabel, ev = LabelChange newLabel)
     ∨ (∃ event, ev = Drop event))
  ∧ (State.id st' ≠ State.id st →
     (∃ event, ev = Drop event) ∨ (∃ instance, ev = Init instance))
  ∧ (State.reactFlowInstance st' ≠ State.reactFlowInstance st →
     ∃ instance, ev = Init instance)
  ∧ State.reactFlowWrapper st' = State.reactFlowWrapper st.
Proof.
  cbn zeta.
  destruct ev as [instance|node|newLabel| |changes|changes|params|event| | ];
    cbn [handle].
  - unfold onInit, bind, get. destruct (sameInstance _ _);
      split_and!; try done; eauto.
  - split_and!; try done; eauto.
  - rewrite handleLabelChange_run. split_and!; try done; eauto.
  - split_and!; try done; eauto.
  - split_and!; try done; eauto.
  - split_and!; try done; eauto.
  - split_and!; try done; eauto.
  - destruct (onDrop_frame event st) as (He & Hs & Hi & Hw & Ht).
    rewrite He, Hs, Hi, Hw, Ht. split_and!; try done; eauto.
  - split_and!; try done; eauto.
  - rewrite handleSave_run. split_and!; try done; eauto.
Qed.

(** ** From the palette to the canvas *)

(** X13. Dragging any palette entry and dropping it on a ready canvas creates a
    node of that entry's type, whatever else the drag already carried; a drag
    that carries nothing under the editor's format is ignored by the drop. *)
Theorem palette_drag_then_drop (entry : NodeType) (dt : DataTransfer)
    (clientX clientY : float) (st : State)
    (bounds : DOMRect) (instance : ReactFlowInstance) :
  entry ∈ NODE_TYPES →
  State.reactFlowWrapper st = Some bounds →
  State.reactFlowInstance st = Some instance →
  (∃ n, State.nodes (final (onDrop (dropOf clientX clientY (onDragStart entry dt)) st))
          = State.nodes st ++ [n]
        ∧ Node.type n = NodeType.type entry
        ∧ Node.id n = nodeId (State.id st))
  ∧ (dt !! "application/reactflow" = None →
     final (onDrop (dropOf clientX clientY dt) st) = st).
Proof.
  intros Hentry Hwr Hinst. split.
  - assert (Hget : getData "application/reactflow" (onDragStart entry dt)
                   = NodeType.type entry).
    { unfold getData, onDragStart, setData. by rewrite lookup_insert_eq. }
    assert (Htype : NodeType.type entry ≠ "").
    { unfold NODE_TYPES in Hentry. apply list_elem_of_singleton in Hentry as ->. done. }
    rewrite (onDrop_ready_node _ st bounds instance); [|by cbn; rewrite Hget|done..].
    unfold final. cbn [fst snd State.nodes]. eexists. split; [done|].
    cbn. by rewrite Hget.
  - intros Hnone. rewrite onDrop_no_type; [done|].
    cbn. unfold getData. by rewrite Hnone.
Qed.

Lemma palette_drag_then_drop_witness :
  ∃ n, State.nodes (final (onDrop (dropOf 120 80
                                     (onDragStart (NodeType.mk "default" "Message Node") ∅))
                             readyState)) = [n]
       ∧ Node.type n = "default".
Proof.
  destruct (proj1 (palette_drag_then_drop (NodeType.mk "default" "Message Node") ∅
                     120 80 readyState (DOMRect.mk 20 10) identityInstance
                     (list_elem_of_here _ _) eq_refl eq_refl))
    as (n & Hn & Hty & _).
  exists n. split; [exact Hn | exact Hty].
Defined.

(** ** Notifications of a session *)

Section notifications.

Lemma handle_toasts (ev : Event) (st : State) :
  toasts (handle ev st)
  = if isSave ev
    then [if (1 <? length (State.nodes st))
               && (1 <? length (nodesWithNoIncoming (State.nodes st) (State.edges st)))
          then toastFailed else toastSaved]
    else [].
Proof.
  destruct ev; cbn [handle isSave]; try done.
  - unfold onInit, bind, get. by destruct (sameInstance _ _).
  - apply onDrop_frame.
  - by rewrite handleSave_run.
Qed.

End notifications.

(** X14. A session notifies once per click on "Save Flow" and at no other event,
    each time with one of the two notifications of [handleSave]. *)
Theorem session_toasts_count (evs : list Event) (st : State) :
  length (toasts (session evs st)) = length (List.filter isSave evs)
  ∧ Forall (λ t, t = toastFailed ∨ t = toastSaved) (toasts (session evs st)).
Proof.
  revert st. induction evs as [|ev evs IH]; intros st.
  - split; [done|constructor].
  - cbn [session List.filter]. unfold bind, toasts.
    pose proof (handle_toasts ev st) as Hev. unfold toasts in Hev.
    destruct (handle ev st) as [[[] st1] out1]. cbn [snd] in Hev.
    destruct (IH st1) as [Hlen Hall]. unfold toasts in Hlen, Hall.
    destruct (session evs st1) as [[[] st2] out2]. cbn [snd] in *.
    rewrite length_app, Hlen, Hev. split.
    + by destruct (isSave ev).
    + apply Forall_app. split; [|done].
      destruct (isSave ev); [|constructor].
      apply Forall_singleton. destruct (_ && _); auto.
Qed.
